(** * Memory relevance ranking: [getRelevantMemories]

    A shallow embedding of [getRelevantMemories] from
    [src/services/geminiService.ts] and the properties of its ranking.

    Modelling choices, all taken from the TypeScript source:

    - a JavaScript string is a sequence of code units; the development
      covers the code units 0..255 (Latin-1), on which [toLowerCase],
      [\w] and [\s] are given exactly, and represents such a string as a
      Rocq [string];
    - a JavaScript number is an IEEE 754 binary64 value: [score] is a
      [spec_float] handled with the binary64 operations of the
      [SpecFloat] library (precision 53, maximal exponent 1024);
    - the integer-valued quantities of the code ([index],
      [memories.length], [matchCount], [word.length]) are natural numbers
      and enter the score through [of_nat], which is exact below 2^53;
    - [limit] is an integer ([Z]); [Array.prototype.slice] is embedded with
      its treatment of negative and out-of-range arguments;
    - [Array.prototype.sort] is a stable sort; for a comparator that is a
      consistent ordering, as the difference of two scores is, its result
      is the stable sorted order, and it is embedded as a stable insertion
      sort driven by the comparator of the source. *)

From Stdlib Require Import ZArith List Bool Ascii String Lia PeanoNat.
From Stdlib Require Import Sorted SpecFloat.
Import ListNotations.

Local Open Scope string_scope.

(** ** JavaScript numbers (binary64) *)

Module Num.

Definition number : Type := spec_float.

Definition prec : Z := 53.
Definition emax : Z := 1024.

Definition add : number -> number -> number := SFadd prec emax.
Definition sub : number -> number -> number := SFsub prec emax.
Definition mul : number -> number -> number := SFmul prec emax.
Definition div : number -> number -> number := SFdiv prec emax.

(** [a > b], false as soon as one side is NaN. *)
Definition gt (a b : number) : bool := SFltb b a.

Definition zero : number := S754_zero false.

(** The double nearest to a natural number. *)
Definition of_nat (n : nat) : number :=
  binary_normalize prec emax (Z.of_nat n) 0 false.

Definition one : number := of_nat 1.
Definition two : number := of_nat 2.
Definition five : number := of_nat 5.

(** The literal [0.2]: the double nearest to one fifth. *)
Definition zero_point_two : number :=
  S754_finite false 7205759403792794 (-55).

End Num.

Import Num.

(** ** Strings *)

Definition code (c : ascii) : N := N_of_ascii c.

Definition between (lo hi n : N) : bool := (lo <=? n)%N && (n <=? hi)%N.

(** [String.prototype.toLowerCase] on one code unit below 256: the letters
    A-Z and the Latin-1 capitals U+00C0..U+00DE (without the
    multiplication sign U+00D7) move up by 32. *)
Definition lower_char (c : ascii) : ascii :=
  let n := code c in
  if between 65 90 n || (between 192 222 n && negb (n =? 215)%N)
  then ascii_of_N (n + 32)
  else c.

Fixpoint toLowerCase (s : string) : string :=
  match s with
  | EmptyString => EmptyString
  | String c s' => String (lower_char c) (toLowerCase s')
  end.

(** The class [\w]: ASCII letters, digits and the underscore. *)
Definition is_word (c : ascii) : bool :=
  let n := code c in
  between 97 122 n || between 65 90 n || between 48 57 n || (n =? 95)%N.

(** The class [\s] below 256: TAB, LF, VT, FF, CR, space, NBSP. *)
Definition is_space (c : ascii) : bool :=
  let n := code c in
  between 9 13 n || (n =? 32)%N || (n =? 160)%N.

(** [s.replace(/[^\w\s]/g, '')] *)
Fixpoint strip (s : string) : string :=
  match s with
  | EmptyString => EmptyString
  | String c s' =>
      if is_word c || is_space c then String c (strip s') else strip s'
  end.

Fixpoint rev_string (acc s : string) : string :=
  match s with
  | EmptyString => acc
  | String c s' => rev_string (String c acc) s'
  end.

(** [s.split(/\s+/)]: the pieces between the maximal runs of white space;
    a run at either end of the string leaves an empty piece there, and the
    empty string gives one empty piece. [cur] is the piece being read, in
    reverse; [in_run] tells that the previous code unit was white space. *)
Fixpoint split_go (s : string) (cur : string) (in_run : bool) : list string :=
  match s with
  | EmptyString => [rev_string EmptyString cur]
  | String c s' =>
      if is_space c then
        if in_run then split_go s' EmptyString true
        else rev_string EmptyString cur :: split_go s' EmptyString true
      else split_go s' (String c cur) false
  end.

Definition split (s : string) : list string := split_go s EmptyString false.

(** [array.includes(word)] on an array of strings. *)
Definition includes (ws : list string) (w : string) : bool :=
  existsb (String.eqb w) ws.

(** [text.includes(word)]: [word] occurs in [text] as a substring. *)
Fixpoint str_includes (text w : string) : bool :=
  prefix w text ||
  match text with
  | EmptyString => false
  | String _ text' => str_includes text' w
  end.

(** ** Arrays *)

Section Arrays.

Context {A : Type}.

(** The relative index of [slice]: a negative argument counts from the
    end, and the result is clamped to [0 .. len]. *)
Definition clamp_index (len i : Z) : Z :=
  if (i <? 0)%Z then Z.max (len + i) 0 else Z.min i len.

(** [l.slice(start, end)]; [end_] is [None] when the argument is left
    out. *)
Definition slice (l : list A) (start : Z) (end_ : option Z) : list A :=
  let len := Z.of_nat (List.length l) in
  let k := clamp_index len start in
  let final := match end_ with
               | None => len
               | Some e => clamp_index len e
               end in
  firstn (Z.to_nat (Z.max (final - k) 0)) (skipn (Z.to_nat k) l).

(** [l.map((x, index) => f(x, index))] *)
Fixpoint mapi_from {B : Type} (f : A -> nat -> B) (i : nat) (l : list A)
  : list B :=
  match l with
  | [] => []
  | x :: l' => f x i :: mapi_from f (S i) l'
  end.

Definition mapi {B : Type} (f : A -> nat -> B) (l : list A) : list B :=
  mapi_from f 0 l.

(** [l.sort(cmp)]. The comparator returns a number; [x] is moved behind
    [y] only when [cmp x y] is above zero, so that elements the
    comparator does not separate keep their order (stable sort). *)
Variable cmp : A -> A -> number.

Fixpoint insert (x : A) (l : list A) : list A :=
  match l with
  | [] => [x]
  | y :: l' => if gt (cmp x y) zero then y :: insert x l' else x :: l
  end.

Fixpoint sort (l : list A) : list A :=
  match l with
  | [] => []
  | x :: l' => insert x (sort l')
  end.

End Arrays.

(** ** The ranking function *)

Definition stopWords : list string :=
  ["the"; "and"; "for"; "with"; "that"; "this"; "from"; "have"; "what";
   "where"; "when"; "how"; "who"; "your"; "mine"; "about"; "some"; "they";
   "them"].

(** [s.toLowerCase().replace(/[^\w\s]/g, '').split(/\s+/)] *)
Definition tokens (s : string) : list string :=
  split (strip (toLowerCase s)).

Definition usable (w : string) : bool :=
  (2 <? String.length w)%nat && negb (includes stopWords w).

Definition queryWords (query : string) : list string :=
  filter usable (tokens query).

Record scored : Type := mkScored { memory : string; score : number }.

(** One turn of the [forEach] over the query words; the state is the pair
    of the local variables [score] and [matchCount]. *)
Definition match_step (memoryLower : string) (memoryWords : list string)
  (st : number * nat) (word : string) : number * nat :=
  let '(sc, matchCount) := st in
  if includes memoryWords word then
    (add sc (mul (of_nat (String.length word)) two), S matchCount)
  else if str_includes memoryLower word then
    (add sc (of_nat (String.length word)), S matchCount)
  else st.

Definition match_loop (qws : list string) (mem : string) : number * nat :=
  let memoryLower := toLowerCase mem in
  let memoryWords := split (strip memoryLower) in
  fold_left (match_step memoryLower memoryWords) qws (zero, 0%nat).

(** The density boost. *)
Definition density (st : number * nat) : number :=
  let '(sc, matchCount) := st in
  if (1 <? matchCount)%nat
  then mul sc (add one (mul (of_nat matchCount) zero_point_two))
  else sc.

Definition recencyFactor (index len : nat) : number :=
  mul (div (of_nat index) (of_nat len)) five.

Definition score_memory (qws : list string) (len : nat)
  (mem : string) (index : nat) : scored :=
  mkScored mem (add (density (match_loop qws mem)) (recencyFactor index len)).

Definition scoredMemories (qws : list string) (memories : list string)
  : list scored :=
  mapi (score_memory qws (List.length memories)) memories.

(** The comparator [(a, b) => b.score - a.score]. *)
Definition by_score (a b : scored) : number := sub (score b) (score a).

Definition relevant (qws : list string) (memories : list string)
  : list string :=
  map memory
    (filter (fun m => gt (score m) five)
       (sort by_score (scoredMemories qws memories))).

Definition getRelevantMemories (query : string) (memories : list string)
  (limit : Z) : list string :=
  match memories with
  | [] => []
  | _ :: _ =>
      let qws := queryWords query in
      match qws with
      | [] => slice memories (- limit) None
      | _ :: _ =>
          match relevant qws memories with
          | [] => slice memories (-3) None
          | rel => slice rel 0 (Some limit)
          end
      end
  end.

(** ** The same function with the division of the recency term checked

    [getRelevantMemories_checked] follows the source statement by
    statement, but its division reports a zero divisor as [None]. *)

Definition recencyFactor_checked (index len : nat) : option number :=
  match len with
  | O => None
  | S _ => Some (mul (div (of_nat index) (of_nat len)) five)
  end.

Definition score_memory_checked (qws : list string) (len : nat)
  (mem : string) (index : nat) : option scored :=
  match recencyFactor_checked index len with
  | None => None
  | Some r => Some (mkScored mem (add (density (match_loop qws mem)) r))
  end.

Fixpoint sequence {A : Type} (l : list (option A)) : option (list A) :=
  match l with
  | [] => Some []
  | None :: _ => None
  | Some x :: l' =>
      match sequence l' with
      | None => None
      | Some xs => Some (x :: xs)
      end
  end.

Definition getRelevantMemories_checked (query : string)
  (memories : list string) (limit : Z) : option (list string) :=
  match memories with
  | [] => Some []
  | _ :: _ =>
      let qws := queryWords query in
      match qws with
      | [] => Some (slice memories (- limit) None)
      | _ :: _ =>
          match sequence
                  (mapi (score_memory_checked qws (List.length memories))
                     memories) with
          | None => None
          | Some scoredMems =>
              match map memory
                      (filter (fun m => gt (score m) five)
                         (sort by_score scoredMems)) with
              | [] => Some (slice memories (-3) None)
              | rel => Some (slice rel 0 (Some limit))
              end
          end
      end
  end.

(** ** The scoring rule as the specification words it *)

Module Spec.

(** A query token matches a memory exactly when it is one of the
    memory's tokens. *)
Definition exact_match (w mem : string) : bool :=
  includes (tokens mem) w.

(** A query token matches as a substring when the lowercased memory text
    contains it. *)
Definition substring_match (w mem : string) : bool :=
  str_includes (toLowerCase mem) w.

Definition matches (mem w : string) : bool :=
  exact_match w mem || substring_match w mem.

(** [2 * len w] for an exact match, else [len w] for a substring match,
    else [0]. *)
Definition contribution (mem w : string) : number :=
  if exact_match w mem then mul (of_nat (String.length w)) two
  else if substring_match w mem then of_nat (String.length w)
  else zero.

Definition lexical_sum (qws : list string) (mem : string) : number :=
  fold_left (fun acc w => add acc (contribution mem w)) qws zero.

(** The number of query tokens that match, each occurrence counted. *)
Definition match_count (qws : list string) (mem : string) : nat :=
  List.length (filter (matches mem) qws).

(** The number of distinct query tokens that match. *)
Definition distinct_match_count (qws : list string) (mem : string) : nat :=
  List.length (nodup string_dec (filter (matches mem) qws)).

Definition spec_score (qws : list string) (mem : string) (i n : nat)
  : number :=
  let s := lexical_sum qws mem in
  let c := match_count qws mem in
  let boosted :=
    if (1 <? c)%nat then mul s (add one (mul (of_nat c) zero_point_two))
    else s in
  add boosted (mul (div (of_nat i) (of_nat n)) five).

End Spec.

(** ** Auxiliary predicates and the data of the examples *)

(** A number that is not negative: [+0], a positive finite number, [+oo];
    NaN is let through, so that the predicate is closed under the
    operations. *)
Definition nonneg (x : number) : Prop :=
  match x with
  | S754_zero s | S754_infinity s | S754_finite s _ _ => s = false
  | S754_nan => True
  end.

(** A number strictly below 5: [+0], or a positive double whose exponent
    and mantissa are below those of 5. *)
Definition below_five (x : number) : Prop :=
  x = zero \/
  exists m e,
    x = S754_finite false m e
    /\ (e < -50 \/ (e = -50 /\ Z.pos m < 5629499534213120))%Z.

(** The test [matchCount > 1] of the source, after the loop. *)
Definition boosted (qws : list string) (mem : string) : bool :=
  (1 <? snd (match_loop qws mem))%nat.

Definition demo : list string :=
  ["User likes coffee"; "User is a software engineer"; "User lives in Paris";
   "User prefers concise answers"; "User dislikes spicy food"].

Definition demo_query : string := "Tell me about the user's job".

(** ** Values of doubles, for the comparison of scores *)








(** ** The call of the ranker in [handleSubmit], and the memory store *)

(** [getRelevantMemories(messageContent, memories)]: the parameter [limit]
    takes its default value 5. *)
Definition relevantMemories (messageContent : string)
  (memories : list string) : list string :=
  getRelevantMemories messageContent memories 5.

(** [s.trimStart()], [s.trimEnd()], [s.trim()]: the white space removed is
    the class [\s]. *)
Fixpoint trimStart (s : string) : string :=
  match s with
  | EmptyString => EmptyString
  | String c s' => if is_space c then trimStart s' else s
  end.

Fixpoint trimEnd (s : string) : string :=
  match s with
  | EmptyString => EmptyString
  | String c s' =>
      match trimEnd s' with
      | EmptyString => if is_space c then EmptyString
                       else String c EmptyString
      | t => String c t
      end
  end.

Definition trim (s : string) : string := trimEnd (trimStart s).

(** A string used as a condition: the empty string is falsy. *)
Definition truthy (s : string) : bool :=
  match s with
  | EmptyString => false
  | String _ _ => true
  end.

(** The two handlers of the memory input:
    [if (newMemory.trim()) setMemories([...memories, newMemory.trim()])]. *)
Definition addMemory (newMemory : string) (memories : list string)
  : list string :=
  if truthy (trim newMemory) then (memories ++ [trim newMemory])%list
  else memories.

(** [l.filter((_, idx) => idx !== i)], of the delete button of a memory
    and of [removeFile]. *)
Fixpoint remove_index_from {A : Type} (i k : nat) (l : list A) : list A :=
  match l with
  | [] => []
  | x :: l' =>
      if (k =? i)%nat then remove_index_from i (S k) l'
      else x :: remove_index_from i (S k) l'
  end.

Definition remove_index {A : Type} (i : nat) (l : list A) : list A :=
  remove_index_from i 0 l.

(** ** Files ([src/utils/fileParser.ts]) *)

Module FileData.
Record t : Type :=
  mk { name : string; content : string; type : string; size : nat }.
End FileData.

(** The browser's [File]: what the code reads of it, and its bytes. *)
Module File.
Record t : Type :=
  mk { name : string; type : string; size : nat; bytes : string }.
End File.

(** A promise that has settled: fulfilled with a value, or rejected with
    the message of the error. *)
Inductive result (A : Type) : Type :=
| Ok (a : A)
| Err (message : string).

Arguments Ok {A} a.
Arguments Err {A} message.

(** [s.split(sep)] for a separator of one code unit. *)
Fixpoint split_on_go (sep : ascii) (s cur : string) : list string :=
  match s with
  | EmptyString => [rev_string EmptyString cur]
  | String c s' =>
      if Ascii.eqb c sep
      then rev_string EmptyString cur :: split_on_go sep s' EmptyString
      else split_on_go sep s' (String c cur)
  end.

Definition split_on (sep : ascii) (s : string) : list string :=
  split_on_go sep s EmptyString.

(** [l.pop()]: the last element, [undefined] on an empty array. *)
Fixpoint pop {A : Type} (l : list A) : option A :=
  match l with
  | [] => None
  | [x] => Some x
  | _ :: l' => pop l'
  end.

(** [file.name.split('.').pop()?.toLowerCase()] *)
Definition extension_of (name : string) : option string :=
  option_map toLowerCase (pop (split_on "." name)).

Inductive parser : Type := UsePDF | UseExcel | UseWord | UseText.

(** [extension || ''] *)
Definition or_empty (extension : option string) : string :=
  match extension with
  | Some e => e
  | None => EmptyString
  end.

(** The chain of tests of [parseFile]; [None] is the branch that throws. *)
Definition dispatch (extension : option string) : option parser :=
  if match extension with
     | Some e => String.eqb e "pdf"
     | None => false
     end then Some UsePDF
  else if includes ["xlsx"; "xls"; "csv"] (or_empty extension)
  then Some UseExcel
  else if includes ["docx"; "doc"] (or_empty extension) then Some UseWord
  else if includes ["txt"; "md"; "json"; "js"; "ts"; "py"; "html"; "css"]
            (or_empty extension)
  then Some UseText
  else None.

Definition newline : string := String (ascii_of_nat 10) EmptyString.

Section Parsing.

(** The libraries behind the parsers: the text items of every page of a PDF
    document (pdf.js), the sheets of a workbook by name with their CSV
    rendering (SheetJS), the raw text of a Word document (mammoth) and
    [file.text()]. Each one may reject. *)
Variable pdf_pages : File.t -> result (list (list string)).
Variable xlsx_sheets : File.t -> result (list (string * string)).
Variable mammoth_raw_text : File.t -> result string.
Variable file_text : File.t -> result string.

Definition parsePDF (file : File.t) : result string :=
  match pdf_pages file with
  | Err e => Err e
  | Ok pages =>
      Ok (fold_left
            (fun fullText items =>
               fullText ++ (String.concat " " items ++ newline))
            pages EmptyString)
  end.

Definition parseExcel (file : File.t) : result string :=
  match xlsx_sheets file with
  | Err e => Err e
  | Ok sheets =>
      Ok (fold_left
            (fun fullText sheet =>
               fullText ++
               ("Sheet: " ++ fst sheet ++ newline ++ snd sheet
                ++ newline ++ newline))
            sheets EmptyString)
  end.

Definition parseWord (file : File.t) : result string :=
  mammoth_raw_text file.

Definition parseFile (file : File.t) : result FileData.t :=
  let extension := extension_of (File.name file) in
  let content :=
    match dispatch extension with
    | Some UsePDF => parsePDF file
    | Some UseExcel => parseExcel file
    | Some UseWord => parseWord file
    | Some UseText => file_text file
    | None => Err "Unsupported file format"
    end in
  match content with
  | Ok c => Ok (FileData.mk (File.name file) c (File.type file)
                  (File.size file))
  | Err e => Err e
  end.

(** The loop of [handleFileChange]: a file that cannot be parsed is
    reported and skipped. The result is the pair of [newFiles] and of the
    names reported, in order. *)
Fixpoint parse_each (files : list File.t) : list FileData.t * list string :=
  match files with
  | [] => ([], [])
  | f :: files' =>
      let '(newFiles, failed) := parse_each files' in
      match parseFile f with
      | Ok parsed => (parsed :: newFiles, failed)
      | Err _ => (newFiles, File.name f :: failed)
      end
  end.

(** [handleFileChange] on the state [attachedFiles]; [files] is
    [e.target.files], [None] when it is null. *)
Definition handleFileChange (files : option (list File.t))
  (attachedFiles : list FileData.t) : list FileData.t * list string :=
  match files with
  | None => (attachedFiles, [])
  | Some fs =>
      let '(newFiles, failed) := parse_each fs in
      ((attachedFiles ++ newFiles)%list, failed)
  end.

(** The loop of [onDrop]: the first file that cannot be parsed ends it. *)
Fixpoint parse_all (files : list File.t) : result (list FileData.t) :=
  match files with
  | [] => Ok []
  | f :: files' =>
      match parseFile f with
      | Err e => Err e
      | Ok parsed =>
          match parse_all files' with
          | Err e => Err e
          | Ok newFiles => Ok (parsed :: newFiles)
          end
      end
  end.

(** [onDrop] on the state [attachedFiles]; the boolean tells whether the
    alert "Failed to parse some files." was raised. *)
Definition onDrop (files : option (list File.t))
  (attachedFiles : list FileData.t) : list FileData.t * bool :=
  match files with
  | None | Some [] => (attachedFiles, false)
  | Some fs =>
      match parse_all fs with
      | Ok newFiles => ((attachedFiles ++ newFiles)%list, false)
      | Err _ => (attachedFiles, true)
      end
  end.

End Parsing.

(** ** Messages and chat sessions *)

Module Role.
Inductive t : Type := user | model.
End Role.

Module Feedback.
Inductive t : Type := positive | negative.
End Feedback.

Module Source.
Record t : Type := mk { title : string; uri : string }.
End Source.

(** [Message]; [timestamp] is the time in milliseconds, and an optional
    field that is left out is [None]. *)
Module Message.
Record t : Type :=
  mk { role : Role.t;
       content : string;
       timestamp : Z;
       isError : option bool;
       sources : option (list Source.t);
       feedback : option Feedback.t;
       files : option (list FileData.t) }.
End Message.

(** [m.isError] used as a condition. *)
Definition is_error (m : Message.t) : bool :=
  match Message.isError m with
  | Some true => true
  | _ => false
  end.

Module ChatSession.
Record t : Type :=
  mk { id : string;
       title : string;
       messages : list Message.t;
       updatedAt : Z }.
End ChatSession.

(** The part of the state of [App] that the session handlers use. *)
Record AppState : Type :=
  mkApp { sessions : list ChatSession.t;
          currentSessionId : string;
          isSidebarOpen : bool }.

(** [sessions.find(s => s.id === currentSessionId) || sessions[0]] *)
Definition currentSession (st : AppState) : option ChatSession.t :=
  match find (fun s => String.eqb (ChatSession.id s) (currentSessionId st))
          (sessions st) with
  | Some s => Some s
  | None => hd_error (sessions st)
  end.

(** [handleNewChat]; [newId] is the random identifier drawn, [now] the
    time, [innerWidth] the width of the window. *)
Definition handleNewChat (newId : string) (now innerWidth : Z)
  (st : AppState) : AppState :=
  let newSession := ChatSession.mk newId "New Chat" [] now in
  mkApp (newSession :: sessions st) newId
    (if (innerWidth <? 768)%Z then false else isSidebarOpen st).

(** [deleteSession]; [handleNewChat] runs on the sessions of the state in
    which the handler was created. *)
Definition deleteSession (id : string) (newId : string) (now innerWidth : Z)
  (st : AppState) : AppState :=
  let newSessions :=
    filter (fun s => negb (String.eqb (ChatSession.id s) id))
      (sessions st) in
  match newSessions with
  | [] => handleNewChat newId now innerWidth st
  | first :: _ =>
      mkApp newSessions
        (if String.eqb (currentSessionId st) id then ChatSession.id first
         else currentSessionId st)
        (isSidebarOpen st)
  end.

(** [prev.map(s => s.id === currentSessionId ? f(s) : s)], the shape of
    every update of the sessions in [handleSubmit], [handleFeedback] and
    [clearChat]. *)
Definition update_current (cur : string) (f : ChatSession.t -> ChatSession.t)
  (prev : list ChatSession.t) : list ChatSession.t :=
  map (fun s => if String.eqb (ChatSession.id s) cur then f s else s) prev.

(** The title that [handleSubmit] gives the session on a message that is
    not a retry. *)
Definition newTitle (session : ChatSession.t) (messageContent : string)
  (attachedFiles : list FileData.t) : string :=
  match ChatSession.messages session with
  | [] =>
      if (30 <? String.length messageContent)%nat
      then substring 0 30 messageContent ++ "..."
      else if truthy messageContent then messageContent
      else match attachedFiles with
           | f :: _ =>
               if truthy (FileData.name f) then FileData.name f
               else "New Chat"
           | [] => "New Chat"
           end
  | _ :: _ => ChatSession.title session
  end.

(** The end of a turn of [handleSubmit], for the answer of the model as
    for the error message:
    [{...s, messages: [...s.messages.filter(m => !m.isError), message]}]. *)
Definition appendReply (cur : string) (message : Message.t)
  (prev : list ChatSession.t) : list ChatSession.t :=
  update_current cur
    (fun s =>
       ChatSession.mk (ChatSession.id s) (ChatSession.title s)
         (filter (fun m => negb (is_error m)) (ChatSession.messages s)
          ++ [message])%list
         (ChatSession.updatedAt s))
    prev.

(** [handleFeedback] *)
Definition toggle_feedback (fb : Feedback.t) (m : Message.t) : Message.t :=
  Message.mk (Message.role m) (Message.content m) (Message.timestamp m)
    (Message.isError m) (Message.sources m)
    (match Message.feedback m, fb with
     | Some Feedback.positive, Feedback.positive
     | Some Feedback.negative, Feedback.negative => None
     | _, _ => Some fb
     end)
    (Message.files m).

Definition handleFeedback (cur : string) (messageIndex : nat)
  (fb : Feedback.t)
  (prev : list ChatSession.t) : list ChatSession.t :=
  update_current cur
    (fun s =>
       ChatSession.mk (ChatSession.id s) (ChatSession.title s)
         (mapi (fun m idx =>
                  if (idx =? messageIndex)%nat then toggle_feedback fb m
                  else m)
            (ChatSession.messages s))
         (ChatSession.updatedAt s))
    prev.

(** [filteredSessions] *)
Definition filteredSessions (searchQuery : string)
  (sessions : list ChatSession.t) : list ChatSession.t :=
  filter
    (fun session =>
       if negb (truthy (trim searchQuery)) then true
       else
         let query := toLowerCase searchQuery in
         let titleMatch :=
           str_includes (toLowerCase (ChatSession.title session)) query in
         let messageMatch :=
           existsb
             (fun m => str_includes (toLowerCase (Message.content m)) query)
             (ChatSession.messages session) in
         titleMatch || messageMatch)
    sessions.

(** ** The stream of the answer *)

(** What [handleSubmit] reads of a chunk of the stream: [chunk.text] and
    [chunk.candidates?.[0]?.groundingMetadata?.groundingChunks], each
    grounding chunk with its optional [web] and the optional [uri] and
    [title] of it. *)
Module Web.
Record t : Type := mk { uri : option string; title : option string }.
End Web.

Module Chunk.
Record t : Type :=
  mk { text : option string;
       groundingChunks : option (list (option Web.t)) }.
End Chunk.

(** [if (c.web && c.web.uri && c.web.title)
       if (!sources.find(s => s.uri === c.web.uri))
         sources.push({ title: c.web.title, uri: c.web.uri })] *)
Definition add_source (srcs : list Source.t) (c : option Web.t)
  : list Source.t :=
  match c with
  | Some (Web.mk (Some u) (Some t)) =>
      if truthy u && truthy t then
        match find (fun s => String.eqb (Source.uri s) u) srcs with
        | Some _ => srcs
        | None => (srcs ++ [Source.mk t u])%list
        end
      else srcs
  | _ => srcs
  end.

(** One turn of the [for await] loop on the pair of [assistantContent] and
    [sources]. *)
Definition read_chunk (st : string * list Source.t) (chunk : Chunk.t)
  : string * list Source.t :=
  let '(assistantContent, srcs) := st in
  let assistantContent :=
    match Chunk.text chunk with
    | Some t => if truthy t then assistantContent ++ t else assistantContent
    | None => assistantContent
    end in
  let srcs :=
    match Chunk.groundingChunks chunk with
    | Some chunks => fold_left add_source chunks srcs
    | None => srcs
    end in
  (assistantContent, srcs).

Definition read_stream (stream : list Chunk.t) : string * list Source.t :=
  fold_left read_chunk stream (EmptyString, []).

(** ** The history sent with a message ([sendMessageStream]) *)

Module Content.
Record t : Type := mk { role : Role.t; parts : list string }.
End Content.

(** [history.slice(-15).map(msg =>
       ({ role: msg.role, parts: [{ text: msg.content }] }))] *)
Definition to_content (msg : Message.t) : Content.t :=
  Content.mk (Message.role msg) [Message.content msg].

Definition chat_history (history : list Message.t) : list Content.t :=
  map to_content (slice history (-15) None).

(** The start of [handleSubmit(e, retryMessage, retryFiles)]; an argument
    that is left out is [None].

    [messageContent = retryMessage || input] and
    [currentFiles = retryFiles || attachedFiles] (an array is truthy, also
    when it is empty). *)
Definition messageContent_of (retryMessage : option string) (input : string)
  : string :=
  match retryMessage with
  | Some r => if truthy r then r else input
  | None => input
  end.

Definition currentFiles_of (retryFiles : option (list FileData.t))
  (attachedFiles : list FileData.t) : list FileData.t :=
  match retryFiles with
  | Some fs => fs
  | None => attachedFiles
  end.

(** The early return:
    [(!messageContent.trim() && currentFiles.length === 0) || isLoading]. *)
Definition returns_early (retryMessage : option string)
  (retryFiles : option (list FileData.t)) (input : string)
  (attachedFiles : list FileData.t) (isLoading : bool) : bool :=
  (negb (truthy (trim (messageContent_of retryMessage input)))
   && (List.length (currentFiles_of retryFiles attachedFiles) =? 0)%nat)
  || isLoading.

(** The test [!retryMessage] of the source, negated: the branch of a retry
    is taken when [retryMessage] is a string that is not empty. *)
Definition is_retry (retryMessage : option string) : bool :=
  match retryMessage with
  | Some r => truthy r
  | None => false
  end.

Definition userMessage (messageContent : string) (now : Z)
  (attachedFiles : list FileData.t) : Message.t :=
  Message.mk Role.user messageContent now None None None
    (match attachedFiles with
     | [] => None
     | _ :: _ => Some attachedFiles
     end).

(** [updatedMessages], from the messages of the current session. *)
Definition updatedMessages (retryMessage : option string) (input : string)
  (session : ChatSession.t) (now : Z) (attachedFiles : list FileData.t)
  : list Message.t :=
  if is_retry retryMessage
  then filter (fun m => negb (is_error m)) (ChatSession.messages session)
  else (ChatSession.messages session
        ++ [userMessage (messageContent_of retryMessage input) now
              attachedFiles])%list.

(** The history that [handleSubmit] hands to [sendMessageStream]; [None]
    when the handler returns early. *)
Definition submit_history (retryMessage : option string)
  (retryFiles : option (list FileData.t)) (input : string)
  (attachedFiles : list FileData.t) (isLoading : bool)
  (session : ChatSession.t) (now : Z) : option (list Content.t) :=
  if returns_early retryMessage retryFiles input attachedFiles isLoading
  then None
  else Some (chat_history
               (updatedMessages retryMessage input session now
                  attachedFiles)).

(** The lower case of the ASCII letters only. *)
Definition lower_ascii (c : ascii) : ascii :=
  if between 65 90 (code c) then ascii_of_N (code c + 32) else c.

Fixpoint fold_ascii_case (s : string) : string :=
  match s with
  | EmptyString => EmptyString
  | String c s' => String (lower_ascii c) (fold_ascii_case s')
  end.

(** The current session is found by its identifier, and not by the
    fallback to the first session. *)
Definition current_valid (st : AppState) : Prop :=
  exists s,
    currentSession st = Some s
    /\ ChatSession.id s = currentSessionId st
    /\ In s (sessions st).

(** Error messages stand at the last position only. *)
Definition errors_only_last (msgs : list Message.t) : Prop :=
  forall i m,
    nth_error msgs i = Some m -> is_error m = true ->
    S i = List.length msgs.

(** Data for the runs of the session and stream properties. *)
Definition demo_error : Message.t :=
  Message.mk Role.model "sorry" 3 (Some true) None None None.

Definition demo_question : Message.t :=
  Message.mk Role.user "hello" 1 None None None None.

Definition demo_session : ChatSession.t :=
  ChatSession.mk "1" "hello" [demo_question; demo_error] 3.

(** A session whose only message of the user has files and no text, and
    the error message that answered it. *)
Definition demo_attachment : FileData.t :=
  FileData.mk "notes.txt" "abc" "text/plain" 3.

Definition demo_files_only : Message.t :=
  Message.mk Role.user EmptyString 1 None None None (Some [demo_attachment]).

Definition demo_failed_session : ChatSession.t :=
  ChatSession.mk "1" "notes.txt" [demo_files_only; demo_error] 3.

Definition demo_stream : list Chunk.t :=
  [Chunk.mk (Some "Par") None;
   Chunk.mk (Some "is")
     (Some [Some (Web.mk (Some "https://a") (Some "A")); None;
            Some (Web.mk (Some "https://a") (Some "B"))])].

(** ** Concrete runs *)

Example split_inner :
  split " a  b " = [EmptyString; "a"; "b"; EmptyString].
Proof. reflexivity. Qed.

Example split_empty : split EmptyString = [EmptyString].
Proof. reflexivity. Qed.

Example split_blank : split "   " = [EmptyString; EmptyString].
Proof. reflexivity. Qed.

Example zero_point_two_is_a_fifth : div one five = zero_point_two.
Proof. vm_compute. reflexivity. Qed.

Example demo_queryWords : queryWords demo_query = ["tell"; "users"; "job"].
Proof. vm_compute. reflexivity. Qed.

Example slice_negative_limit :
  getRelevantMemories "the and for" demo (-2) =
  ["User lives in Paris"; "User prefers concise answers";
   "User dislikes spicy food"].
Proof. vm_compute. reflexivity. Qed.

(** ** Arrays: [slice], [mapi], [sort] *)

Section ArrayFacts.

Context {A : Type}.

Lemma In_firstn (n : nat) (l : list A) (x : A) :
  In x (firstn n l) -> In x l.
Proof.
  intros H. rewrite <- (firstn_skipn n l). apply in_or_app. now left.
Qed.

Lemma In_skipn (n : nat) (l : list A) (x : A) :
  In x (skipn n l) -> In x l.
Proof.
  intros H. rewrite <- (firstn_skipn n l). apply in_or_app. now right.
Qed.

Lemma slice_In (l : list A) (a : Z) (b : option Z) (x : A) :
  In x (slice l a b) -> In x l.
Proof.
  unfold slice. intros H.
  apply In_firstn in H. now apply In_skipn in H.
Qed.

Lemma slice_length_le (l : list A) (k : Z) :
  (0 <= k)%Z -> (Z.of_nat (List.length (slice l 0 (Some k))) <= k)%Z.
Proof.
  intros Hk. unfold slice, clamp_index.
  change (0 <? 0)%Z with false. cbv iota.
  destruct (k <? 0)%Z eqn:E; [apply Z.ltb_lt in E; lia|].
  rewrite length_firstn. lia.
Qed.

(** With a positive [k], [l.slice(-k)] is the tail of [l] of length
    [min k (length l)]. *)
Lemma slice_tail (l : list A) (k : Z) :
  (0 < k)%Z ->
  slice l (- k) None =
  skipn (List.length l - Nat.min (Z.to_nat k) (List.length l)) l.
Proof.
  intros Hk. unfold slice, clamp_index.
  destruct (- k <? 0)%Z eqn:E; [|apply Z.ltb_ge in E; lia].
  rewrite firstn_all2 by (rewrite length_skipn; lia).
  f_equal. lia.
Qed.

Lemma slice_tail_length (l : list A) (k : Z) :
  (0 < k)%Z ->
  List.length (slice l (- k) None) = Nat.min (Z.to_nat k) (List.length l).
Proof.
  intros Hk. rewrite slice_tail by assumption.
  rewrite length_skipn. lia.
Qed.

(** [l.slice(-0)] is [l.slice(0)]: the whole array. *)
Lemma slice_zero (l : list A) : slice l (- 0) None = l.
Proof.
  unfold slice, clamp_index. simpl.
  rewrite Z.min_l by lia. simpl.
  apply firstn_all2. lia.
Qed.

Lemma mapi_from_length {B : Type} (f : A -> nat -> B) (l : list A) :
  forall i, List.length (mapi_from f i l) = List.length l.
Proof.
  induction l as [|x l IH]; intros i; simpl; [reflexivity|].
  now rewrite IH.
Qed.

Lemma mapi_from_nth {B : Type} (f : A -> nat -> B) (l : list A) :
  forall i k x,
    nth_error l k = Some x ->
    nth_error (mapi_from f i l) k = Some (f x (i + k)%nat).
Proof.
  induction l as [|y l IH]; intros i k x H.
  - destruct k; discriminate.
  - destruct k as [|k]; simpl in *.
    + injection H as ->. now rewrite Nat.add_0_r.
    + rewrite (IH (S i) k x H). f_equal. f_equal. lia.
Qed.

Lemma mapi_from_In {B : Type} (f : A -> nat -> B) (l : list A) :
  forall i y,
    In y (mapi_from f i l) ->
    exists k x, nth_error l k = Some x /\ y = f x (i + k)%nat.
Proof.
  induction l as [|z l IH]; intros i y H; simpl in H; [contradiction|].
  destruct H as [<-|H].
  - exists 0%nat, z. split; [reflexivity|]. now rewrite Nat.add_0_r.
  - destruct (IH _ _ H) as (k & x & Hk & ->).
    exists (S k), x. split; [exact Hk|]. f_equal. lia.
Qed.

Variable cmp : A -> A -> number.

Lemma insert_In (x y : A) (l : list A) :
  In y (insert cmp x l) <-> y = x \/ In y l.
Proof.
  induction l as [|z l IH]; simpl.
  - intuition.
  - destruct (gt (cmp x z) zero); simpl; rewrite ?IH; intuition.
Qed.

Lemma sort_In (y : A) (l : list A) : In y (sort cmp l) <-> In y l.
Proof.
  induction l as [|z l IH]; simpl; [tauto|].
  rewrite insert_In, IH. intuition.
Qed.

End ArrayFacts.

Section Doubles.

Local Open Scope Z_scope.

(** ** Digits *)

Lemma digits2_pos_size (p : positive) : digits2_pos p = Pos.size p.
Proof. induction p; simpl; congruence. Qed.

Lemma digits2_log2 (p : positive) :
  Z.pos (digits2_pos p) = Z.log2 (Z.pos p) + 1.
Proof.
  rewrite digits2_pos_size.
  destruct p; simpl; try rewrite Pos2Z.inj_succ; lia.
Qed.

Lemma digits2_bounds (p : positive) :
  2 ^ (Z.pos (digits2_pos p) - 1) <= Z.pos p < 2 ^ Z.pos (digits2_pos p).
Proof.
  rewrite digits2_log2.
  replace (Z.log2 (Z.pos p) + 1 - 1) with (Z.log2 (Z.pos p)) by lia.
  apply Z.log2_spec. lia.
Qed.

Lemma digits2_unique (p : positive) (k : Z) :
  1 <= k -> 2 ^ (k - 1) <= Z.pos p < 2 ^ k ->
  Z.pos (digits2_pos p) = k.
Proof.
  intros Hk H. rewrite digits2_log2.
  assert (Hl : Z.log2 (Z.pos p) = k - 1).
  { apply Z.log2_unique; [lia|].
    now replace (Z.succ (k - 1)) with k by lia. }
  lia.
Qed.

(** ** Shifts *)

Lemma shr_record_of_loc_m (m : Z) (l : location) :
  shr_m (shr_record_of_loc m l) = m.
Proof. destruct l as [|[]]; reflexivity. Qed.

Lemma shr_1_m (mrs : shr_record) :
  0 <= shr_m mrs -> shr_m (shr_1 mrs) = shr_m mrs / 2.
Proof.
  destruct mrs as [m r s]. simpl. intros Hm.
  rewrite <- Z.div2_div.
  destruct m as [|[p|p|]|p]; try reflexivity; lia.
Qed.

Lemma iter_pos_shr_m (p : positive) :
  forall mrs, 0 <= shr_m mrs ->
    shr_m (iter_pos shr_1 p mrs) = shr_m mrs / 2 ^ Z.pos p.
Proof.
  induction p as [p IH|p IH|]; intros mrs Hm; simpl iter_pos.
  - assert (H1 : 0 <= shr_m (shr_1 mrs))
      by (rewrite shr_1_m by assumption; apply Z.div_pos; lia).
    assert (H2 : 0 <= shr_m (iter_pos shr_1 p (shr_1 mrs)))
      by (rewrite IH by assumption; apply Z.div_pos; lia).
    rewrite IH, IH, shr_1_m by assumption.
    rewrite !Z.div_div by lia.
    f_equal.
    replace (Z.pos p~1) with (1 + Z.pos p + Z.pos p) by lia.
    rewrite !Z.pow_add_r by lia. lia.
  - assert (H2 : 0 <= shr_m (iter_pos shr_1 p mrs))
      by (rewrite IH by assumption; apply Z.div_pos; lia).
    rewrite IH, IH by assumption.
    rewrite !Z.div_div by lia.
    f_equal.
    replace (Z.pos p~0) with (Z.pos p + Z.pos p) by lia.
    rewrite !Z.pow_add_r by lia. lia.
  - now apply shr_1_m.
Qed.

Lemma round_nearest_even_bounds (m : Z) (l : location) :
  m <= round_nearest_even m l <= m + 1.
Proof.
  destruct l as [|[]]; simpl; try destruct (Z.even m); lia.
Qed.

(** The first step of rounding: a positive [m] with [n] digits too many
    loses its [n] low bits. *)
Lemma shr_fexp_m (m : positive) (e : Z) (l : location) (n : Z) :
  n = Z.pos (digits2_pos m) - 53 -> 0 <= n -> -1074 <= e + n ->
  exists mrs,
    shr_fexp prec emax (Z.pos m) e l = (mrs, e + n)
    /\ shr_m mrs = Z.pos m / 2 ^ n.
Proof.
  intros Hn Hn0 He. unfold shr_fexp, shr, fexp, emin, prec, emax.
  simpl Zdigits2.
  replace (Z.max (Z.pos (digits2_pos m) + e - 53) (3 - 1024 - 53) - e)
    with n by lia.
  destruct n as [|p|p]; [| |lia].
  - eexists. split; [f_equal; lia|].
    rewrite shr_record_of_loc_m, Z.pow_0_r, Z.div_1_r. reflexivity.
  - eexists. split; [reflexivity|].
    rewrite iter_pos_shr_m; rewrite shr_record_of_loc_m; [reflexivity|lia].
Qed.

(** ** Rounding to 53 bits *)

(** [binary_round_aux] on a positive [M] with [n + 53] digits: the result
    is finite with a mantissa of 53 digits; either the mantissa is the
    truncation of [M] or its successor, or the successor was [2^53] and
    the exponent moved up by one more. *)
Lemma round_aux_shape (M : positive) (E : Z) (l : location) (n : Z) :
  n = Z.pos (digits2_pos M) - 53 -> 0 <= n ->
  -1074 <= E + n -> E + n + 1 <= 971 ->
  exists m2 k,
    binary_round_aux prec emax false (Z.pos M) E l
    = S754_finite false m2 (E + n + k)
    /\ Z.pos (digits2_pos m2) = 53
    /\ ((k = 0 /\ Z.pos M / 2 ^ n <= Z.pos m2 <= Z.pos M / 2 ^ n + 1)
        \/ (k = 1 /\ Z.pos m2 = 2 ^ 52 /\ Z.pos M / 2 ^ n = 2 ^ 53 - 1)).
Proof.
  intros Hn Hn0 He1 He2.
  destruct (shr_fexp_m M E l n Hn Hn0 He1) as (mrs & Hs & Hm).
  unfold binary_round_aux. rewrite Hs.
  pose proof (digits2_bounds M) as HM.
  assert (Hm' : 2 ^ 52 <= shr_m mrs < 2 ^ 53).
  { rewrite Hm. replace (Z.pos (digits2_pos M)) with (n + 53) in HM by lia.
    replace (n + 53 - 1) with (n + 52) in HM by lia.
    rewrite !Z.pow_add_r in HM by lia.
    assert (0 < 2 ^ n) by (apply Z.pow_pos_nonneg; lia).
    split.
    - apply Z.div_le_lower_bound; lia.
    - apply Z.div_lt_upper_bound; lia. }
  pose proof (round_nearest_even_bounds (shr_m mrs) (loc_of_shr_record mrs))
    as Hr.
  destruct (round_nearest_even (shr_m mrs) (loc_of_shr_record mrs))
    as [|p1|p1]; try lia.
  destruct (Z.eq_dec (Z.pos p1) (2 ^ 53)) as [Hc|Hc].
  - destruct (shr_fexp_m p1 (E + n) loc_Exact 1) as (mrs2 & Hs2 & Hm2);
      [rewrite (digits2_unique p1 54); lia|lia|lia|].
    rewrite Hs2, Hm2, Hc.
    replace (2 ^ 53 / 2 ^ 1) with (Z.pos 4503599627370496)
      by (vm_compute; reflexivity).
    destruct (Z.leb_spec (E + n + 1) (emax - prec));
      [|unfold emax, prec in *; lia].
    exists 4503599627370496%positive, 1.
    split; [reflexivity|]. split; [reflexivity|].
    right. repeat split; lia.
  - destruct (shr_fexp_m p1 (E + n) loc_Exact 0) as (mrs2 & Hs2 & Hm2);
      [rewrite (digits2_unique p1 53); lia|lia|lia|].
    rewrite Hs2, Hm2, Z.pow_0_r, Z.div_1_r.
    destruct (Z.leb_spec (E + n + 0) (emax - prec));
      [|unfold emax, prec in *; lia].
    exists p1, 0.
    split; [reflexivity|]. split; [apply digits2_unique; lia|].
    left. rewrite <- Hm. lia.
Qed.

Lemma shr_fexp_exact (m : positive) (e : Z) :
  Z.pos (digits2_pos m) = 53 -> -1074 <= e ->
  shr_fexp prec emax (Z.pos m) e loc_Exact
  = (Build_shr_record (Z.pos m) false false, e).
Proof.
  intros Hd He. unfold shr_fexp, shr, fexp, emin, prec, emax.
  simpl Zdigits2.
  replace (Z.max (Z.pos (digits2_pos m) + e - 53) (3 - 1024 - 53) - e)
    with 0 by lia.
  reflexivity.
Qed.

(** A mantissa of 53 digits with an exact location is left as it is. *)
Lemma round_aux_canonical (m : positive) (e : Z) :
  Z.pos (digits2_pos m) = 53 -> -1074 <= e <= 971 ->
  binary_round_aux prec emax false (Z.pos m) e loc_Exact
  = S754_finite false m e.
Proof.
  intros Hd He. unfold binary_round_aux.
  rewrite shr_fexp_exact by lia. simpl.
  rewrite shr_fexp_exact by lia. simpl.
  destruct (Z.leb_spec e 971); [reflexivity|lia].
Qed.

(** ** Natural numbers as doubles *)

Lemma pos_iter_xO (p k : positive) :
  Z.pos (Pos.iter xO p k) = Z.pos p * 2 ^ Z.pos k.
Proof.
  induction k as [|k IH] using Pos.peano_ind.
  - simpl. lia.
  - rewrite Pos.iter_succ, Pos2Z.inj_xO, IH, Pos2Z.inj_succ.
    rewrite Z.pow_succ_r by lia. lia.
Qed.

(** A natural number below [2^53] is a double: its mantissa is the number
    shifted up to 53 digits. *)
Lemma of_nat_shape (n : nat) :
  (0 < n)%nat -> Z.of_nat n < 2 ^ 53 ->
  exists m a,
    of_nat n = S754_finite false m (- a)
    /\ Z.pos (digits2_pos m) = 53
    /\ 0 <= a <= 52
    /\ Z.pos m = Z.of_nat n * 2 ^ a.
Proof.
  intros Hn Hlt. unfold of_nat, binary_normalize.
  destruct (Z.of_nat n) as [|p|p] eqn:Ep; try lia.
  pose proof (digits2_bounds p) as Hb.
  set (d := Z.pos (digits2_pos p)) in *.
  assert (Hd : 1 <= d <= 53).
  { split; [unfold d; lia|].
    destruct (Z_le_gt_dec d 53) as [|Hgt]; [assumption|exfalso].
    assert (2 ^ 53 <= 2 ^ (d - 1)) by (apply Z.pow_le_mono_r; lia). lia. }
  unfold binary_round, shl_align, fexp, emin, prec, emax.
  fold d.
  replace (Z.max (d + 0 - 53) (3 - 1024 - 53)) with (d - 53) by lia.
  destruct (d - 53 - 0) as [|k|k] eqn:Ek; try lia.
  - assert (Hdp : Z.pos (digits2_pos p) = 53) by (fold d; lia).
    exists p, 0. replace (d - 53) with 0 by lia.
    split; [|split; [exact Hdp|split; [lia|rewrite Z.pow_0_r; lia]]].
    change (- 0) with 0.
    pose proof (round_aux_canonical p 0 Hdp) as Hc.
    unfold prec, emax in Hc. apply Hc. lia.
  - assert (Hm : Z.pos (Pos.iter xO p k) = Z.pos p * 2 ^ Z.pos k)
      by apply pos_iter_xO.
    assert (Hdm : Z.pos (digits2_pos (Pos.iter xO p k)) = 53).
    { apply digits2_unique; [lia|]. rewrite Hm.
      replace 53 with (d + Z.pos k) by lia.
      replace (d + Z.pos k - 1) with (d - 1 + Z.pos k) by lia.
      rewrite !Z.pow_add_r by lia.
      assert (0 < 2 ^ Z.pos k) by (apply Z.pow_pos_nonneg; lia).
      nia. }
    exists (Pos.iter xO p k), (Z.pos k).
    replace (d - 53) with (- Z.pos k) by lia.
    split; [|split; [exact Hdm|split; [lia|exact Hm]]].
    pose proof (round_aux_canonical (Pos.iter xO p k) (- Z.pos k) Hdm) as Hc.
    unfold prec, emax in Hc. apply Hc. lia.
Qed.

(** ** Division of two doubles with full mantissas *)

Lemma div_core_shape (mx my : positive) (a b : Z) :
  Z.pos (digits2_pos mx) = 53 -> Z.pos (digits2_pos my) = 53 ->
  0 <= a <= 52 -> 0 <= b <= 52 ->
  exists l,
    SFdiv_core_binary prec emax (Z.pos mx) (- a) (Z.pos my) (- b)
    = (Z.pos mx * 2 ^ 53 / Z.pos my, b - a - 53, l).
Proof.
  intros Hx Hy Ha Hb. unfold SFdiv_core_binary. simpl Zdigits2.
  rewrite Hx, Hy. unfold fexp, emin, prec, emax.
  replace (Z.min (Z.max (53 + - a - (53 + - b) - 53) (3 - 1024 - 53))
             (- a - - b)) with (b - a - 53) by lia.
  replace (- a - - b - (b - a - 53)) with 53 by lia.
  rewrite Z.shiftl_mul_pow2 by lia.
  unfold Z.div.
  destruct (Z.div_eucl (Z.pos mx * 2 ^ 53) (Z.pos my)) as [q r].
  eexists. reflexivity.
Qed.

Lemma pow2_pos (n : Z) : 0 <= n -> 0 < 2 ^ n.
Proof. intros H. apply Z.pow_pos_nonneg; lia. Qed.

Lemma pow2_lt_exp (a b : Z) : 0 <= b -> 2 ^ a < 2 ^ b -> a < b.
Proof. intros Hb H. apply (Z.pow_lt_mono_r_iff 2); lia. Qed.

Lemma pow2_le (a b : Z) : 0 <= a <= b -> 2 ^ a <= 2 ^ b.
Proof. intros H. apply Z.pow_le_mono_r; lia. Qed.

Lemma quot_lt (m T q n P : Z) :
  0 < T -> 0 < n -> 0 < P ->
  T * m <= q -> q * n <= (n - 1) * (P * T) -> m < P.
Proof.
  intros HT Hn HP H1 H2.
  apply (Z.mul_lt_mono_pos_r (T * n)); [nia|].
  assert (T * m * n <= q * n) by (apply Z.mul_le_mono_nonneg_r; lia).
  assert ((n - 1) * (P * T) < n * (P * T))
    by (apply Z.mul_lt_mono_pos_r; nia).
  nia.
Qed.

Lemma quot_gap (m T q n P : Z) :
  0 < T -> 0 < n -> 0 < P ->
  T * m <= q -> q * n <= (n - 1) * (P * T) -> P - 1 <= m -> P <= n.
Proof.
  intros HT Hn HP H1 H2 H3.
  assert (H4 : T * (P - 1) <= T * m) by (apply Z.mul_le_mono_nonneg_l; lia).
  assert (H5 : T * (P - 1) * n <= q * n)
    by (apply Z.mul_le_mono_nonneg_r; lia).
  assert (H6 : ((P - 1) * n) * T <= ((n - 1) * P) * T) by lia.
  apply Z.mul_le_mono_pos_r in H6; [|exact HT].
  lia.
Qed.

(** The quotient of two naturals [i < N < 2^53] is a double below one. *)
Lemma div_below_one (i N : nat) :
  (0 < i < N)%nat -> Z.of_nat N < 2 ^ 53 ->
  exists m e,
    div (of_nat i) (of_nat N) = S754_finite false m e
    /\ Z.pos (digits2_pos m) = 53
    /\ -107 <= e <= -53
    /\ Z.pos m < 2 ^ (- e).
Proof.
  intros Hi HN.
  destruct (of_nat_shape i) as (mx & a & Hx & Hdx & Ha & Hmx); [lia|lia|].
  destruct (of_nat_shape N) as (my & b & Hy & Hdy & Hb & Hmy); [lia|lia|].
  rewrite Hx, Hy. unfold div, SFdiv. simpl xorb.
  destruct (div_core_shape mx my a b Hdx Hdy Ha Hb) as (l & Hc).
  rewrite Hc. clear Hc Hx Hy.
  pose proof (digits2_bounds mx) as Bx. rewrite Hdx in Bx.
  pose proof (digits2_bounds my) as By. rewrite Hdy in By.
  change (53 - 1) with 52 in *.
  set (I := Z.of_nat i) in *. set (NN := Z.of_nat N) in *.
  assert (HI : 0 < I < NN) by (unfold I, NN; lia).
  pose proof (pow2_pos a (proj1 Ha)) as HA.
  pose proof (pow2_pos b (proj1 Hb)) as HB.
  (* the exponent of the numerator is not above that of the divisor *)
  assert (Hab : b <= a).
  { destruct (Z_le_gt_dec b a) as [|Hgt]; [assumption|exfalso].
    assert (2 ^ (a + 1) <= 2 ^ b) by (apply pow2_le; lia).
    rewrite Z.pow_add_r in H by lia. nia. }
  set (C := 2 ^ (a - b)).
  assert (HC : 0 < C) by (apply pow2_pos; lia).
  assert (HAC : 2 ^ a = 2 ^ b * C).
  { unfold C. rewrite <- Z.pow_add_r by lia. f_equal. lia. }
  set (q := Z.pos mx * 2 ^ 53 / Z.pos my).
  assert (Hq1 : Z.pos my * q <= Z.pos mx * 2 ^ 53)
    by (apply Z.mul_div_le; lia).
  assert (Hq2 : 2 ^ 52 <= q < 2 ^ 54).
  { split.
    - apply Z.div_le_lower_bound; lia.
    - apply Z.div_lt_upper_bound; lia. }
  (* q * N <= (N - 1) * 2^(53 + a - b) *)
  assert (Hq3 : q * NN <= (NN - 1) * (2 ^ 53 * C)).
  { assert (H1 : q * NN * 2 ^ b <= I * C * 2 ^ 53 * 2 ^ b).
    { rewrite Hmx, Hmy, HAC in Hq1. nia. }
    apply (Z.mul_le_mono_pos_r _ _ (2 ^ b)) in H1; [|exact HB].
    nia. }
  destruct q as [|qp|qp] eqn:Eq; try lia.
  pose proof (digits2_bounds qp) as Bq.
  set (d := Z.pos (digits2_pos qp)) in *.
  assert (Hd : d = 53 \/ d = 54).
  { assert (52 < d) by (apply pow2_lt_exp; lia).
    assert (d - 1 < 54) by (apply pow2_lt_exp; lia).
    lia. }
  destruct (round_aux_shape qp (b - a - 53) l (d - 53))
    as (m2 & k & Hr & Hd2 & Hk); [reflexivity|lia|lia|lia|].
  rewrite Hr. exists m2, (b - a - 53 + (d - 53) + k).
  split; [reflexivity|]. split; [exact Hd2|].
  pose proof (digits2_bounds m2) as B2. rewrite Hd2 in B2.
  change (53 - 1) with 52 in B2.
  (* P' = 2^(53 + a - b - n) *)
  set (t := 53 + a - b - (d - 53)).
  assert (Ht : 2 ^ 53 * C = 2 ^ t * 2 ^ (d - 53)).
  { unfold C, t. rewrite <- !Z.pow_add_r by lia. f_equal. lia. }
  assert (Hm' : Z.pos qp / 2 ^ (d - 53) <= 2 ^ t - 2 /\ 53 <= t).
  { set (m' := Z.pos qp / 2 ^ (d - 53)) in *.
    assert (HT : 0 < 2 ^ (d - 53)) by (apply pow2_pos; lia).
    assert (Hm1 : 2 ^ (d - 53) * m' <= Z.pos qp)
      by (apply Z.mul_div_le; lia).
    assert (Hm2 : 2 ^ 52 <= m').
    { apply Z.div_le_lower_bound; [lia|].
      rewrite <- Z.pow_add_r by lia.
      replace (d - 53 + 52) with (d - 1) by lia. lia. }
    assert (HPt : 0 < 2 ^ t) by (apply pow2_pos; unfold t; lia).
    rewrite Ht in Hq3.
    assert (Hlt : m' < 2 ^ t)
      by (apply (quot_lt m' (2 ^ (d - 53)) (Z.pos qp) NN); lia).
    assert (H53 : 53 <= t).
    { assert (52 < t); [|lia].
      apply pow2_lt_exp; [unfold t; lia|lia]. }
    split; [|exact H53].
    assert (2 ^ 53 <= 2 ^ t) by (apply pow2_le; lia).
    destruct (Z_le_gt_dec m' (2 ^ t - 2)) as [|Hgt]; [assumption|exfalso].
    assert (2 ^ t <= NN)
      by (apply (quot_gap m' (2 ^ (d - 53)) (Z.pos qp) NN); lia).
    lia. }
  destruct Hm' as [Hm' H53].
  destruct Hk as [(-> & Hk)|(-> & Hk1 & Hk2)].
  - split; [unfold t in H53; lia|].
    replace (- (b - a - 53 + (d - 53) + 0)) with t by (unfold t; lia).
    lia.
  - assert (H54 : 53 < t).
    { apply pow2_lt_exp; [lia|]. lia. }
    split; [unfold t in *; lia|].
    replace (- (b - a - 53 + (d - 53) + 1)) with (t - 1) by (unfold t; lia).
    rewrite Hk1.
    assert (2 ^ 53 <= 2 ^ (t - 1)) by (apply pow2_le; lia). lia.
Qed.

(** ** Multiplication by five *)

Lemma five_shape : five = S754_finite false 5629499534213120 (-50).
Proof. vm_compute. reflexivity. Qed.

(** The largest double below one, times five. *)
Lemma mul_five_pred_one :
  mul (S754_finite false 9007199254740991 (-53)) five
  = S754_finite false 5629499534213119 (-50).
Proof. vm_compute. reflexivity. Qed.

(** The product of a full-mantissa double with five, before its value is
    looked at: [n] low bits of the 105 or 106 bit product are shifted out. *)
Lemma mul_five_round (m : positive) (e : Z) :
  Z.pos (digits2_pos m) = 53 -> -107 <= e <= -53 ->
  exists m3 n k,
    mul (S754_finite false m e) five = S754_finite false m3 (e - 50 + n + k)
    /\ (n = 52 \/ n = 53)
    /\ ((k = 0
         /\ Z.pos m3 <= Z.pos m * 5629499534213120 / 2 ^ n + 1)
        \/ (k = 1 /\ Z.pos m3 = 2 ^ 52
            /\ Z.pos m * 5629499534213120 / 2 ^ n = 2 ^ 53 - 1)).
Proof.
  intros Hd He. rewrite five_shape. unfold mul, SFmul. simpl xorb.
  pose proof (digits2_bounds m) as Bm. rewrite Hd in Bm.
  change (2 ^ (53 - 1)) with 4503599627370496 in Bm.
  change (2 ^ 53) with 9007199254740992 in Bm.
  set (M := (m * 5629499534213120)%positive).
  assert (HM : Z.pos M = Z.pos m * 5629499534213120) by reflexivity.
  pose proof (digits2_bounds M) as BM.
  set (D := Z.pos (digits2_pos M)) in *.
  assert (HD : D = 105 \/ D = 106).
  { assert (104 < D).
    { apply pow2_lt_exp; [unfold D; lia|].
      change (2 ^ 104) with 20282409603651670423947251286016. lia. }
    assert (D - 1 < 106).
    { apply pow2_lt_exp; [lia|].
      change (2 ^ 106) with 81129638414606681695789005144064. lia. }
    lia. }
  destruct (round_aux_shape M (e + -50) loc_Exact (D - 53))
    as (m3 & k & Hr & _ & Hk); [reflexivity|lia|lia|lia|].
  rewrite Hr. exists m3, (D - 53), k.
  split; [f_equal; lia|]. split; [lia|].
  rewrite <- HM. destruct Hk as [(-> & Hk)|Hk]; [left|right]; intuition.
Qed.

Lemma mul_five_below (m : positive) (e : Z) :
  Z.pos (digits2_pos m) = 53 -> -107 <= e <= -53 -> Z.pos m < 2 ^ (- e) ->
  below_five (mul (S754_finite false m e) five).
Proof.
  intros Hd He Hm. right.
  destruct (Z.eq_dec e (-53)) as [He53|He53];
    [destruct (Pos.eq_dec m 9007199254740991) as [Hmax|Hmax]|].
  - subst. rewrite mul_five_pred_one. do 2 eexists.
    split; [reflexivity|]. right. split; reflexivity.
  - subst e. change (2 ^ (- -53)) with 9007199254740992 in Hm.
    assert (Hm' : Z.pos m <= 9007199254740990).
    { assert (Z.pos m <> 9007199254740991) by congruence. lia. }
    clear Hmax Hm.
    destruct (mul_five_round m (-53) Hd He) as (m3 & n & k & Hr & Hn & Hk).
    rewrite Hr. do 2 eexists. split; [reflexivity|].
    change (2 ^ 52) with 4503599627370496 in Hk.
    destruct Hn as [-> | ->].
    + destruct Hk as [(-> & Hk)|(-> & Hk & _)]; [left; lia|right; lia].
    + change (2 ^ 53) with 9007199254740992 in Hk.
      assert (Hq : Z.pos m * 5629499534213120 / 9007199254740992
                   < 5629499534213119)
        by (apply Z.div_lt_upper_bound; lia).
      destruct Hk as [(-> & Hk)|(-> & _ & Hk)]; [right; lia|lia].
  - destruct (mul_five_round m e Hd He) as (m3 & n & k & Hr & Hn & Hk).
    rewrite Hr. do 2 eexists. split; [reflexivity|].
    change (2 ^ 52) with 4503599627370496 in Hk.
    destruct Hk as [(-> & _)|(-> & Hk & _)]; [left; lia|].
    destruct (Z.eq_dec (e - 50 + n + 1) (-50)); [right; lia|left; lia].
Qed.

(** ** The recency term *)

Lemma recency_below_five (i N : nat) :
  (i < N)%nat -> Z.of_nat N < 2 ^ 53 -> below_five (recencyFactor i N).
Proof.
  intros Hi HN. unfold recencyFactor.
  destruct i as [|i].
  - destruct (of_nat_shape N) as (my & b & Hy & _); [lia|lia|].
    rewrite Hy. left. reflexivity.
  - destruct (div_below_one (S i) N) as (m & e & Hq & Hd & He & Hm);
      [lia|lia|].
    rewrite Hq. now apply mul_five_below.
Qed.

Lemma compare_cont_Eq (a b : positive) :
  Pos.compare_cont Eq a b = (Z.pos a ?= Z.pos b).
Proof. reflexivity. Qed.

Lemma below_five_lt (x : number) : below_five x -> SFltb x five = true.
Proof.
  rewrite five_shape.
  intros [->|(m & e & -> & H)]; [reflexivity|].
  unfold SFltb, SFcompare.
  destruct (Z.compare_spec e (-50)) as [E|E|E]; [|reflexivity|lia].
  rewrite compare_cont_Eq.
  destruct (Z.compare_spec (Z.pos m) 5629499534213120); [lia|reflexivity|lia].
Qed.

Lemma below_five_not_gt (x : number) : below_five x -> gt x five = false.
Proof.
  rewrite five_shape.
  intros [->|(m & e & -> & H)]; [reflexivity|].
  unfold gt, SFltb, SFcompare.
  destruct (Z.compare_spec (-50) e) as [E|E|E]; [|lia|reflexivity].
  rewrite compare_cont_Eq.
  destruct (Z.compare_spec 5629499534213120 (Z.pos m)); [lia|lia|reflexivity].
Qed.

End Doubles.

(** ** Where the elements of the result come from *)

Lemma scoredMemories_In (qws : list string) (memories : list string)
  (sm : scored) :
  In sm (scoredMemories qws memories) ->
  exists i,
    nth_error memories i = Some (memory sm) /\
    sm = score_memory qws (List.length memories) (memory sm) i.
Proof.
  unfold scoredMemories, mapi. intros H.
  apply mapi_from_In in H. destruct H as (k & x & Hk & ->).
  exists k. simpl. split; [exact Hk|reflexivity].
Qed.

Lemma relevant_scored (qws : list string) (memories : list string)
  (m : string) :
  In m (relevant qws memories) ->
  exists sm,
    In sm (scoredMemories qws memories) /\
    memory sm = m /\ gt (score sm) five = true.
Proof.
  unfold relevant. intros H.
  apply in_map_iff in H. destruct H as (sm & Hm & H).
  apply filter_In in H. destruct H as [H Hgt].
  apply sort_In in H. now exists sm.
Qed.

Lemma relevant_In (qws : list string) (memories : list string) (m : string) :
  In m (relevant qws memories) -> In m memories.
Proof.
  intros H. apply relevant_scored in H. destruct H as (sm & H & <- & _).
  apply scoredMemories_In in H. destruct H as (i & H & _).
  eapply nth_error_In. exact H.
Qed.

(** The three exits of the function, one equation each. *)

Lemma exit_no_query_word (query : string) (memories : list string)
  (limit : Z) :
  memories <> [] -> queryWords query = [] ->
  getRelevantMemories query memories limit = slice memories (- limit) None.
Proof.
  intros Hm Hq. unfold getRelevantMemories.
  destruct memories; [contradiction|]. now rewrite Hq.
Qed.

Lemma exit_ranked (query : string) (memories : list string) (limit : Z) :
  queryWords query <> [] -> relevant (queryWords query) memories <> [] ->
  getRelevantMemories query memories limit =
  slice (relevant (queryWords query) memories) 0 (Some limit).
Proof.
  intros Hq Hr. unfold getRelevantMemories.
  destruct memories as [|m ms]; [now elim Hr|].
  destruct (queryWords query) as [|w ws]; [contradiction|].
  destruct (relevant (w :: ws) (m :: ms)); [contradiction|reflexivity].
Qed.

Lemma exit_no_match (query : string) (memories : list string) (limit : Z) :
  queryWords query <> [] -> relevant (queryWords query) memories = [] ->
  getRelevantMemories query memories limit = slice memories (-3) None.
Proof.
  intros Hq Hr. unfold getRelevantMemories.
  destruct memories as [|m ms]; [reflexivity|].
  destruct (queryWords query) as [|w ws]; [contradiction|].
  now rewrite Hr.
Qed.

(** ** C8: the result is drawn from [memories] *)

(** C8. Every element of the list returned by [getRelevantMemories] is an
    element of [memories], for every query, every list of memories and
    every integer [limit]; and the result for an empty list of memories is
    empty. *)
Theorem result_members (query : string) (memories : list string) (limit : Z) :
  (forall m, In m (getRelevantMemories query memories limit) ->
             In m memories) /\
  getRelevantMemories query [] limit = [].
Proof.
  split; [|reflexivity].
  intros m. unfold getRelevantMemories.
  destruct memories as [|m0 ms]; [tauto|].
  destruct (queryWords query) as [|w ws].
  - apply slice_In.
  - destruct (relevant (w :: ws) (m0 :: ms)) as [|r rs] eqn:E.
    + apply slice_In.
    + intros H. apply slice_In in H. rewrite <- E in H.
      eapply relevant_In. exact H.
Qed.

Lemma result_members_witness :
  In "widget two" ["widget one"; "widget two"] /\
  getRelevantMemories "widget" [] 1 = [].
Proof.
  split.
  - apply (proj1 (result_members "widget" ["widget one"; "widget two"] 1)).
    vm_compute. left. reflexivity.
  - apply (proj2 (result_members "widget" ["widget one"; "widget two"] 1)).
Defined.

(** ** C4 and C10: a query without usable tokens *)

(** C4. For a non-empty list of memories of length [N], a positive [limit]
    and a query whose tokenization leaves no usable token, the result is
    the tail of [memories] of length [min limit N], in the original
    order. *)
Theorem no_query_word_tail (query : string) (memories : list string)
  (limit : Z) :
  memories <> [] -> (0 < limit)%Z -> queryWords query = [] ->
  getRelevantMemories query memories limit =
  skipn (List.length memories
         - Nat.min (Z.to_nat limit) (List.length memories)) memories
  /\ List.length (getRelevantMemories query memories limit)
     = Nat.min (Z.to_nat limit) (List.length memories).
Proof.
  intros Hm Hl Hq.
  rewrite (exit_no_query_word _ _ _ Hm Hq).
  split; [now apply slice_tail|now apply slice_tail_length].
Qed.

Lemma no_query_word_tail_witness :
  getRelevantMemories "the and for" demo 2 =
  ["User prefers concise answers"; "User dislikes spicy food"]
  /\ List.length (getRelevantMemories "the and for" demo 2) = 2%nat.
Proof.
  apply (no_query_word_tail "the and for" demo 2).
  - discriminate.
  - reflexivity.
  - vm_compute. reflexivity.
Defined.

(** C10. For a non-empty list of memories and a query without usable
    tokens, [limit = 0] returns the whole list of memories unchanged, so
    the result is longer than [limit]. *)
Theorem zero_limit_returns_all (query : string) (memories : list string) :
  memories <> [] -> queryWords query = [] ->
  getRelevantMemories query memories 0 = memories
  /\ (0 < Z.of_nat (List.length (getRelevantMemories query memories 0)))%Z.
Proof.
  intros Hm Hq.
  rewrite (exit_no_query_word _ _ _ Hm Hq), slice_zero.
  split; [reflexivity|].
  destruct memories; [contradiction|simpl; lia].
Qed.

Lemma zero_limit_returns_all_witness :
  getRelevantMemories "the and for" demo 0 = demo
  /\ (0 < Z.of_nat (List.length (getRelevantMemories "the and for" demo 0)))%Z.
Proof.
  apply (zero_limit_returns_all "the and for" demo).
  - discriminate.
  - vm_compute. reflexivity.
Defined.

(** ** C5: the length of the result *)

(** C5. With a positive [limit], the result has at most [limit] elements
    when the query has no usable token or some memory scores above 5; on
    the no-match exit (usable tokens, no memory above 5) it has exactly
    [min 3 N] elements, whatever [limit] is. *)
Theorem result_length (query : string) (memories : list string) (limit : Z) :
  (0 < limit)%Z ->
  (queryWords query = [] \/ relevant (queryWords query) memories <> [] ->
   (Z.of_nat (List.length (getRelevantMemories query memories limit))
    <= limit)%Z)
  /\
  (queryWords query <> [] -> relevant (queryWords query) memories = [] ->
   List.length (getRelevantMemories query memories limit)
   = Nat.min 3 (List.length memories)).
Proof.
  intros Hl. split.
  - intros H.
    destruct memories as [|m0 ms] eqn:Em; [simpl; lia|]. rewrite <- Em in *.
    assert (Hm : memories <> []) by (rewrite Em; discriminate).
    destruct (queryWords query) as [|w ws] eqn:Eq.
    + rewrite (exit_no_query_word _ _ _ Hm Eq), slice_tail_length by exact Hl.
      lia.
    + destruct H as [H|H]; [discriminate|].
      rewrite exit_ranked; rewrite ?Eq; try assumption; try discriminate.
      apply slice_length_le. lia.
  - intros Hq Hr.
    rewrite (exit_no_match _ _ _ Hq Hr).
    change (-3)%Z with (Z.opp 3). rewrite slice_tail_length by lia.
    reflexivity.
Qed.

Lemma result_length_witness :
  (Z.of_nat (List.length
     (getRelevantMemories "widget" ["widget one"; "widget two"] 1)) <= 1)%Z
  /\ List.length (getRelevantMemories demo_query demo 1) = 3%nat.
Proof.
  split.
  - apply (proj1 (result_length "widget" ["widget one"; "widget two"] 1
                    eq_refl)).
    right. vm_compute. discriminate.
  - apply (proj2 (result_length demo_query demo 1 eq_refl)).
    + vm_compute. discriminate.
    + vm_compute. reflexivity.
Defined.

(** ** C9: no zero divisor, and a result on every input *)

Lemma sequence_checked (qws : list string) (n : nat) (l : list string) :
  forall i,
    sequence (mapi_from (score_memory_checked qws (S n)) i l)
    = Some (mapi_from (score_memory qws (S n)) i l).
Proof.
  induction l as [|m l IH]; intros i; simpl; [reflexivity|].
  now rewrite IH.
Qed.

(** C9. On every query, every list of memories and every integer [limit]
    the function returns a list: the checked function, in which a
    division by zero would be reported, never reports one and gives the
    result of [getRelevantMemories]; the recency term is only computed
    for a non-empty list of memories. *)
Theorem getRelevantMemories_total (query : string) (memories : list string)
  (limit : Z) :
  getRelevantMemories_checked query memories limit
  = Some (getRelevantMemories query memories limit)
  /\ (forall index, recencyFactor_checked index (List.length memories) = None
                    <-> memories = []).
Proof.
  split.
  - unfold getRelevantMemories_checked, getRelevantMemories.
    destruct memories as [|m ms]; [reflexivity|].
    destruct (queryWords query) as [|w ws]; [reflexivity|].
    unfold mapi. simpl List.length. rewrite sequence_checked.
    unfold relevant, scoredMemories, mapi. simpl List.length.
    destruct (map memory _); reflexivity.
  - intros index. destruct memories; simpl; split; intros H;
      try reflexivity; discriminate.
Qed.

(** ** C1: the scenario of the specification *)

(** Counterexample to C1 as stated: on the scenario, the result does not
    contain "User is a software engineer", it is not the reversed list,
    and no memory scores above 5. *)
Lemma demo_scenario_refuted :
  ~ In "User is a software engineer" (getRelevantMemories demo_query demo 5)
  /\ getRelevantMemories demo_query demo 5 <> rev demo
  /\ forall sm, In sm (scoredMemories (queryWords demo_query) demo) ->
                gt (score sm) five = false.
Proof.
  split; [|split].
  - vm_compute. intros [H|[H|[H|[]]]]; discriminate.
  - vm_compute. discriminate.
  - intros sm H. vm_compute in H.
    destruct H as [<-|[<-|[<-|[<-|[<-|[]]]]]]; reflexivity.
Qed.

(** C1, amended. On the scenario the usable query tokens are [tell],
    [users] and [job] ([about] and [the] are stop words, [me] is too short
    and the apostrophe is stripped from [user's]); no token occurs in any
    memory, so no memory scores above 5 and the result is the no-match
    exit: the last three memories in their original order. *)
Theorem demo_scenario :
  queryWords demo_query = ["tell"; "users"; "job"]
  /\ relevant (queryWords demo_query) demo = []
  /\ getRelevantMemories demo_query demo 5
     = ["User lives in Paris"; "User prefers concise answers";
        "User dislikes spicy food"].
Proof. vm_compute. repeat split. Qed.

(** ** Signs of the scores *)

Lemma binary_round_aux_nonneg (m e : Z) (l : location) :
  nonneg (binary_round_aux prec emax false m e l).
Proof.
  unfold binary_round_aux.
  destruct (shr_fexp prec emax m e l) as [mrs' e'].
  destruct (shr_fexp prec emax _ e' loc_Exact) as [mrs'' e''].
  destruct (shr_m mrs''); simpl; [reflexivity| |exact I].
  destruct (Z.leb _ _); exact eq_refl.
Qed.

Lemma binary_round_nonneg (m : positive) (e : Z) :
  nonneg (binary_round prec emax false m e).
Proof.
  unfold binary_round.
  destruct (shl_align m e _) as [mz ez]. apply binary_round_aux_nonneg.
Qed.

Lemma of_nat_nonneg (n : nat) : nonneg (of_nat n).
Proof.
  unfold of_nat, binary_normalize.
  destruct (Z.of_nat n) eqn:E; [reflexivity| |lia].
  apply binary_round_nonneg.
Qed.

Lemma add_nonneg (x y : number) : nonneg x -> nonneg y -> nonneg (add x y).
Proof.
  destruct x as [sx|sx| |sx mx ex], y as [sy|sy| |sy my ey];
    simpl; intros Hx Hy; subst; try reflexivity; try exact I.
  unfold add, SFadd. simpl cond_Zopp.
  unfold binary_normalize.
  destruct (Z.pos _ + Z.pos _)%Z eqn:E; [reflexivity| |lia].
  apply binary_round_nonneg.
Qed.

Lemma mul_nonneg (x y : number) : nonneg x -> nonneg y -> nonneg (mul x y).
Proof.
  destruct x as [sx|sx| |sx mx ex], y as [sy|sy| |sy my ey];
    simpl; intros Hx Hy; subst; try reflexivity; try exact I.
  apply binary_round_aux_nonneg.
Qed.

Lemma add_zero_r (x : number) : nonneg x -> add x zero = x.
Proof.
  destruct x as [sx|sx| |sx mx ex]; simpl; intros H; subst; reflexivity.
Qed.

Lemma add_zero_l (x : number) : nonneg x -> add zero x = x.
Proof.
  destruct x as [sx|sx| |sx mx ex]; simpl; intros H; subst; reflexivity.
Qed.

(** ** C2 and C6: the loop over the query words *)

Lemma contribution_nonneg (mem w : string) : nonneg (Spec.contribution mem w).
Proof.
  unfold Spec.contribution.
  destruct (Spec.exact_match w mem);
    [apply mul_nonneg; apply of_nat_nonneg|].
  destruct (Spec.substring_match w mem);
    [apply of_nat_nonneg|reflexivity].
Qed.

(** One turn of the loop, on a score that is not negative. *)
Lemma match_step_spec (mem : string) (sc : number) (c : nat) (w : string) :
  nonneg sc ->
  match_step (toLowerCase mem) (tokens mem) (sc, c) w
  = (add sc (Spec.contribution mem w),
     if Spec.matches mem w then S c else c).
Proof.
  intros Hsc.
  unfold match_step, Spec.matches, Spec.contribution, Spec.exact_match,
    Spec.substring_match.
  destruct (includes (tokens mem) w); [reflexivity|].
  destruct (str_includes (toLowerCase mem) w); [reflexivity|].
  now rewrite add_zero_r.
Qed.

(** The loop of the source, started in any state with a score that is not
    negative, adds up the contributions and counts the matching tokens. *)
Lemma match_loop_from (mem : string) (qws : list string) :
  forall (sc : number) (c : nat),
    nonneg sc ->
    fold_left (match_step (toLowerCase mem) (tokens mem)) qws (sc, c)
    = (fold_left (fun acc w => add acc (Spec.contribution mem w)) qws sc,
       (c + List.length (filter (Spec.matches mem) qws))%nat).
Proof.
  induction qws as [|w qws IH]; intros sc c Hsc.
  - simpl. now rewrite Nat.add_0_r.
  - cbn [fold_left filter]. rewrite (match_step_spec _ _ _ _ Hsc).
    rewrite IH by (apply add_nonneg; [exact Hsc|apply contribution_nonneg]).
    destruct (Spec.matches mem w); simpl; f_equal; lia.
Qed.

Lemma match_loop_spec (qws : list string) (mem : string) :
  match_loop qws mem = (Spec.lexical_sum qws mem, Spec.match_count qws mem).
Proof.
  unfold match_loop. fold (tokens mem).
  rewrite match_loop_from by reflexivity. reflexivity.
Qed.

(** C2. When the query has usable tokens, the score of the memory at
    position [i] of a list of length [N] is the sum over the query tokens
    of [2 * len w] for an exact match, else [len w] for a substring match,
    else [0]; times [1 + matchCount * 0.2] exactly when [matchCount > 1];
    plus the recency term [(i / N) * 5]. *)
Theorem score_formula (query : string) (memories : list string) (i : nat)
  (mem : string) :
  queryWords query <> [] ->
  nth_error memories i = Some mem ->
  nth_error (scoredMemories (queryWords query) memories) i
  = Some (mkScored mem
            (Spec.spec_score (queryWords query) mem i
               (List.length memories))).
Proof.
  intros _ Hi. unfold scoredMemories, mapi.
  rewrite (mapi_from_nth _ _ _ _ _ Hi). simpl.
  unfold score_memory, Spec.spec_score, recencyFactor.
  now rewrite match_loop_spec.
Qed.

Lemma score_formula_witness :
  nth_error
    (scoredMemories (queryWords "widget") ["widget one"; "widget two"]) 1
  = Some (mkScored "widget two"
            (Spec.spec_score (queryWords "widget") "widget two" 1 2)).
Proof.
  apply (score_formula "widget" ["widget one"; "widget two"] 1 "widget two").
  - vm_compute. discriminate.
  - reflexivity.
Defined.

(** Counterexample to C6 as stated: the query "widget widget" has the
    token list [widget; widget]; the memory "widget one" matches one
    distinct token, and yet the multiplier is applied: the score before
    recency is [24 * 1.4], not [24]. *)
Lemma repeated_token_boosted :
  let qws := queryWords "widget widget" in
  qws = ["widget"; "widget"]
  /\ Spec.distinct_match_count qws "widget one" = 1%nat
  /\ boosted qws "widget one" = true
  /\ fst (match_loop qws "widget one") = of_nat 24
  /\ density (match_loop qws "widget one")
     = mul (of_nat 24) (add one (mul two zero_point_two))
  /\ density (match_loop qws "widget one") <> of_nat 24.
Proof. vm_compute. repeat split. discriminate. Qed.

(** C6, amended. The multiplier [1 + matchCount * 0.2] is applied exactly
    when more than one token of the filtered query token list matches the
    memory, every occurrence of a token counted: [matchCount] is the
    number of matching occurrences. *)
Theorem density_counts_occurrences (qws : list string) (mem : string) :
  snd (match_loop qws mem) = Spec.match_count qws mem
  /\ boosted qws mem = (1 <? Spec.match_count qws mem)%nat
  /\ density (match_loop qws mem)
     = if (1 <? Spec.match_count qws mem)%nat
       then mul (Spec.lexical_sum qws mem)
              (add one (mul (of_nat (Spec.match_count qws mem))
                          zero_point_two))
       else Spec.lexical_sum qws mem.
Proof.
  unfold boosted. rewrite match_loop_spec. simpl. repeat split.
Qed.


(** ** C3: a ranked memory matches the query *)

Lemma zero_point_two_nonneg : nonneg zero_point_two.
Proof. reflexivity. Qed.

Lemma density_nonneg (st : number * nat) : nonneg (fst st) -> nonneg (density st).
Proof.
  destruct st as [sc c]. unfold density, fst. intros H.
  destruct (1 <? c)%nat; [|exact H].
  apply mul_nonneg; [exact H|].
  apply add_nonneg; [apply of_nat_nonneg|].
  apply mul_nonneg; [apply of_nat_nonneg|apply zero_point_two_nonneg].
Qed.

Lemma lexical_sum_from_nonneg (mem : string) (qws : list string) :
  forall sc, nonneg sc ->
    nonneg (fold_left (fun acc w => add acc (Spec.contribution mem w)) qws sc).
Proof.
  induction qws as [|w qws IH]; intros sc H; simpl; [exact H|].
  apply IH. apply add_nonneg; [exact H|apply contribution_nonneg].
Qed.

Lemma lexical_nonneg (qws : list string) (mem : string) :
  nonneg (density (match_loop qws mem)).
Proof.
  apply density_nonneg. rewrite match_loop_spec. simpl.
  apply lexical_sum_from_nonneg. reflexivity.
Qed.

(** Without a matching token the loop leaves [score] at [+0]. *)
Lemma no_match_no_score (qws : list string) (mem : string) :
  Spec.match_count qws mem = 0%nat -> density (match_loop qws mem) = zero.
Proof.
  intros H. rewrite match_loop_spec. unfold density. rewrite H. simpl.
  unfold Spec.match_count in H. apply length_zero_iff_nil in H.
  unfold Spec.lexical_sum.
  induction qws as [|w qws IH]; [reflexivity|].
  simpl in H. destruct (Spec.matches mem w) eqn:Ew; [discriminate|].
  simpl. unfold Spec.contribution at 2.
  unfold Spec.matches in Ew. apply orb_false_iff in Ew. destruct Ew as [-> ->].
  simpl. apply IH. exact H.
Qed.

Lemma below_five_nonneg (x : number) : below_five x -> nonneg x.
Proof. intros [->|(m & e & -> & _)]; reflexivity. Qed.

(** A score above 5 at a position of a list shorter than [2^53] has a
    lexical part above zero. *)
Lemma score_above_five_lexical (qws : list string) (mem : string)
  (i len : nat) :
  (i < len)%nat -> (Z.of_nat len < 2 ^ 53)%Z ->
  gt (score (score_memory qws len mem i)) five = true ->
  gt (density (match_loop qws mem)) zero = true.
Proof.
  intros Hi Hlen Hgt. simpl in Hgt.
  pose proof (recency_below_five i len Hi Hlen) as Hr.
  pose proof (lexical_nonneg qws mem) as Hn.
  destruct (density (match_loop qws mem)) as [s|s| |s m e];
    simpl in Hn; subst; try reflexivity.
  - change (S754_zero false) with zero in Hgt.
    rewrite add_zero_l in Hgt by (apply below_five_nonneg; exact Hr).
    rewrite (below_five_not_gt _ Hr) in Hgt. discriminate.
  - destruct (recencyFactor i len); discriminate.
Qed.

(** C3. On the ranked exit (usable query tokens, some memory above 5),
    every returned memory has a lexical score above zero and matches some
    query token exactly or as a substring: it stands at a position whose
    score is above 5 while the recency term of that position is strictly
    below 5. The list of memories is shorter than [2^53], as every
    JavaScript array is. *)
Theorem ranked_memories_match (query : string) (memories : list string)
  (limit : Z) (m : string) :
  (Z.of_nat (List.length memories) < 2 ^ 53)%Z ->
  queryWords query <> [] ->
  relevant (queryWords query) memories <> [] ->
  In m (getRelevantMemories query memories limit) ->
  gt (density (match_loop (queryWords query) m)) zero = true
  /\ (exists w, In w (queryWords query) /\
                (Spec.exact_match w m = true \/
                 Spec.substring_match w m = true))
  /\ (exists i,
        nth_error memories i = Some m
        /\ gt (score (score_memory (queryWords query)
                        (List.length memories) m i)) five = true
        /\ SFltb (recencyFactor i (List.length memories)) five = true).
Proof.
  intros Hlen Hq Hr Hin.
  rewrite (exit_ranked _ _ _ Hq Hr) in Hin. apply slice_In in Hin.
  apply relevant_scored in Hin. destruct Hin as (sm & Hsm & <- & Hgt).
  apply scoredMemories_In in Hsm. destruct Hsm as (i & Hi & Esm).
  assert (Hlt : (i < List.length memories)%nat)
    by (apply nth_error_Some; congruence).
  rewrite Esm in Hgt.
  pose proof (score_above_five_lexical _ _ _ _ Hlt Hlen Hgt) as Hlex.
  split; [exact Hlex|]. split.
  - destruct (Spec.match_count (queryWords query) (memory sm)) eqn:Ec.
    + rewrite (no_match_no_score _ _ Ec) in Hlex. discriminate.
    + unfold Spec.match_count in Ec.
      destruct (filter (Spec.matches (memory sm)) (queryWords query))
        as [|w ws] eqn:Ef; [discriminate|].
      assert (Hw : In w (filter (Spec.matches (memory sm))
                           (queryWords query)))
        by (rewrite Ef; now left).
      apply filter_In in Hw. destruct Hw as [Hw Hm].
      exists w. split; [exact Hw|].
      unfold Spec.matches in Hm. now apply orb_true_iff in Hm.
  - exists i. split; [exact Hi|]. split; [exact Hgt|].
    apply below_five_lt. now apply recency_below_five.
Qed.

Lemma ranked_memories_match_witness :
  gt (density (match_loop (queryWords "widget") "widget two")) zero = true
  /\ (exists w, In w (queryWords "widget") /\
                (Spec.exact_match w "widget two" = true \/
                 Spec.substring_match w "widget two" = true))
  /\ (exists i,
        nth_error ["widget one"; "widget two"] i = Some "widget two"
        /\ gt (score (score_memory (queryWords "widget") 2 "widget two" i))
             five = true
        /\ SFltb (recencyFactor i 2) five = true).
Proof.
  apply (ranked_memories_match "widget" ["widget one"; "widget two"] 1
           "widget two").
  - reflexivity.
  - vm_compute. discriminate.
  - vm_compute. discriminate.
  - vm_compute. left. reflexivity.
Defined.

(** ** C7: recency breaks ties

    The scores are followed through the binary64 operations by their
    value: an ordinary number is [+0] or a positive double with a full
    mantissa and an exponent between -128 and 128, and [val] is its value
    in units of 2^-256. Every rounding keeps the value within one part in
    2^52, which is far less than the distance of two recency terms for up
    to 65536 memories and a query of up to 65536 code units. *)

Section Values.

Local Open Scope Z_scope.


Lemma pow2_lt (a b : Z) : 0 <= a < b -> 2 ^ a < 2 ^ b.
Proof. intros H. apply Z.pow_lt_mono_r; lia. Qed.









(** ** Rounding: relative error and exact cases *)






















(** ** The sign of a difference *)





End Values.

(** ** The size of the query words *)













Section LexicalValues.

Local Open Scope Z_scope.

(** ** The lexical sum is a natural number *)












End LexicalValues.

(** ** The sort, for a comparator that follows a key *)

Section SortFacts.

Context {A : Type}.

Variable cmp : A -> A -> number.
Variable key : A -> Z.
Variable good : A -> Prop.

Hypothesis cmp_key :
  forall x y, good x -> good y -> gt (cmp x y) zero = (key x <? key y)%Z.





End SortFacts.

(** ** The scores of a ranking are ordinary numbers *)








(** * Further properties of the code *)

(** ** The ranker as [handleSubmit] calls it *)

Lemma slice_head_length {A : Type} (l : list A) (k : Z) :
  (0 <= k)%Z ->
  List.length (slice l 0 (Some k)) = Nat.min (Z.to_nat k) (List.length l).
Proof.
  intros Hk. unfold slice, clamp_index.
  change (0 <? 0)%Z with false. cbv iota.
  destruct (k <? 0)%Z eqn:E; [apply Z.ltb_lt in E; lia|].
  rewrite length_firstn, length_skipn. lia.
Qed.

(** With a positive [limit] the result is empty only for an empty list of
    memories: the block of user facts of the system instruction, which is
    written when the result is not empty, is there as soon as one memory
    is stored. *)
Theorem result_empty_iff (query : string) (memories : list string)
  (limit : Z) :
  (0 < limit)%Z ->
  (getRelevantMemories query memories limit = [] <-> memories = []).
Proof.
  intros Hl. split; [|intros ->; reflexivity].
  intros H. apply length_zero_iff_nil.
  apply (f_equal (@List.length string)) in H. simpl in H.
  destruct memories as [|m0 ms] eqn:Em; [reflexivity|exfalso].
  rewrite <- Em in H.
  assert (Hm : memories <> []) by (rewrite Em; discriminate).
  assert (HN : (0 < List.length memories)%nat) by (rewrite Em; simpl; lia).
  destruct (queryWords query) as [|w ws] eqn:Eq.
  - rewrite (exit_no_query_word _ _ _ Hm Eq), slice_tail_length in H by lia.
    lia.
  - assert (Hq : queryWords query <> []) by (rewrite Eq; discriminate).
    destruct (relevant (queryWords query) memories) as [|r rs] eqn:Er.
    + rewrite (exit_no_match _ _ _ Hq Er) in H.
      change (-3)%Z with (Z.opp 3) in H.
      rewrite slice_tail_length in H by lia. lia.
    + assert (Hr : relevant (queryWords query) memories <> [])
        by (rewrite Er; discriminate).
      rewrite (exit_ranked _ _ _ Hq Hr), Er in H.
      rewrite slice_head_length in H by lia.
      simpl List.length in H. lia.
Qed.

Lemma result_empty_iff_witness :
  getRelevantMemories "widget" [] 5 = [] <-> @nil string = [].
Proof. apply (result_empty_iff "widget" [] 5). reflexivity. Defined.

Lemma length_from_three (query : string) (memories : list string)
  (limit : Z) :
  (3 <= limit)%Z ->
  (Z.of_nat (List.length (getRelevantMemories query memories limit))
   <= limit)%Z.
Proof.
  intros Hl.
  destruct memories as [|m0 ms] eqn:Em; [simpl; lia|]. rewrite <- Em.
  assert (Hm : memories <> []) by (rewrite Em; discriminate).
  destruct (queryWords query) as [|w ws] eqn:Eq.
  - rewrite (exit_no_query_word _ _ _ Hm Eq), slice_tail_length by lia. lia.
  - assert (Hq : queryWords query <> []) by (rewrite Eq; discriminate).
    destruct (relevant (queryWords query) memories) as [|r rs] eqn:Er.
    + rewrite (exit_no_match _ _ _ Hq Er).
      change (-3)%Z with (Z.opp 3). rewrite slice_tail_length by lia. lia.
    + assert (Hr : relevant (queryWords query) memories <> [])
        by (rewrite Er; discriminate).
      rewrite (exit_ranked _ _ _ Hq Hr).
      apply slice_length_le. lia.
Qed.

(** From [limit = 3] on, the result never has more than [limit] elements,
    on the no-match exit either; the call of [handleSubmit], which leaves
    [limit] at 5, gets at most five memories. *)
Theorem result_length_from_three (query : string) (memories : list string)
  (limit : Z) :
  (3 <= limit)%Z ->
  (Z.of_nat (List.length (getRelevantMemories query memories limit))
   <= limit)%Z
  /\ (List.length (relevantMemories query memories) <= 5)%nat.
Proof.
  intros Hl. split; [now apply length_from_three|].
  unfold relevantMemories.
  pose proof (length_from_three query memories 5). lia.
Qed.

Lemma result_length_from_three_witness :
  (Z.of_nat (List.length (getRelevantMemories demo_query demo 3)) <= 3)%Z
  /\ (List.length (relevantMemories demo_query demo) <= 5)%nat.
Proof. apply (result_length_from_three demo_query demo 3). lia. Defined.

(** On the no-match exit the result is the tail of [memories] of length
    [min 3 N] in the original order, for every [limit]. *)
Theorem no_match_tail (query : string) (memories : list string) (limit : Z) :
  queryWords query <> [] ->
  relevant (queryWords query) memories = [] ->
  getRelevantMemories query memories limit
  = skipn (List.length memories - Nat.min 3 (List.length memories)) memories.
Proof.
  intros Hq Hr. rewrite (exit_no_match _ _ _ Hq Hr).
  change (-3)%Z with (Z.opp 3). rewrite slice_tail by lia. reflexivity.
Qed.

Lemma no_match_tail_witness :
  getRelevantMemories demo_query demo 1
  = skipn (List.length demo - Nat.min 3 (List.length demo)) demo.
Proof.
  apply (no_match_tail demo_query demo 1).
  - vm_compute. discriminate.
  - vm_compute. reflexivity.
Defined.

(** *** Letter case and the shape of the query tokens *)

Lemma lower_char_idem (c : ascii) : lower_char (lower_char c) = lower_char c.
Proof. destruct c as [[] [] [] [] [] [] [] []]; reflexivity. Qed.

Lemma toLowerCase_idem (s : string) :
  toLowerCase (toLowerCase s) = toLowerCase s.
Proof.
  induction s as [|c s IH]; simpl; [reflexivity|].
  now rewrite lower_char_idem, IH.
Qed.

(** The result does not depend on the letter case of the query. *)
Theorem query_case_ignored (query : string) (memories : list string)
  (limit : Z) :
  getRelevantMemories (toLowerCase query) memories limit
  = getRelevantMemories query memories limit.
Proof.
  unfold getRelevantMemories, queryWords, tokens.
  now rewrite toLowerCase_idem.
Qed.

(** The code units of a string, for statements about every one of them. *)
Lemma lower_char_not_upper (c : ascii) :
  between 65 90 (code (lower_char c)) = false.
Proof. destruct c as [[] [] [] [] [] [] [] []]; reflexivity. Qed.

Lemma toLowerCase_units (s : string) (c : ascii) :
  In c (list_ascii_of_string (toLowerCase s)) ->
  between 65 90 (code c) = false.
Proof.
  induction s as [|d s IH]; simpl; [tauto|].
  intros [<-|H]; [apply lower_char_not_upper|now apply IH].
Qed.

Lemma strip_units (s : string) (c : ascii) :
  In c (list_ascii_of_string (strip s)) ->
  In c (list_ascii_of_string s) /\ (is_word c || is_space c) = true.
Proof.
  induction s as [|d s IH]; simpl; [tauto|].
  destruct (is_word d || is_space d) eqn:E; simpl.
  - intros [<-|H]; [now split; [left|]|].
    destruct (IH H). split; [now right|assumption].
  - intros H. destruct (IH H). split; [now right|assumption].
Qed.

Lemma rev_string_units (s acc : string) (c : ascii) :
  In c (list_ascii_of_string (rev_string acc s)) <->
  In c (list_ascii_of_string s) \/ In c (list_ascii_of_string acc).
Proof.
  revert acc. induction s as [|d s IH]; intros acc; simpl; [tauto|].
  rewrite IH. simpl. tauto.
Qed.

(** Every code unit of a piece of [split] is a code unit of the string, or
    of the piece under way, and is not white space. *)
Lemma split_go_units (s : string) :
  forall (cur : string) (b : bool) (w : string) (c : ascii),
    (forall d, In d (list_ascii_of_string cur) -> is_space d = false) ->
    In w (split_go s cur b) -> In c (list_ascii_of_string w) ->
    (In c (list_ascii_of_string s) \/ In c (list_ascii_of_string cur))
    /\ is_space c = false.
Proof.
  induction s as [|d s IH]; intros cur b w c Hcur Hw Hc; simpl in Hw.
  - destruct Hw as [<-|[]]. apply rev_string_units in Hc.
    destruct Hc as [Hc|[]]. split; [now right|now apply Hcur].
  - destruct (is_space d) eqn:Ed.
    + assert (Hnil : forall e, In e (list_ascii_of_string EmptyString) ->
                               is_space e = false) by (simpl; tauto).
      assert (Hrest : In w (split_go s EmptyString true) ->
                      (In c (list_ascii_of_string (String d s)) \/
                       In c (list_ascii_of_string cur))
                      /\ is_space c = false).
      { intros H. destruct (IH _ _ _ _ Hnil H Hc) as [[H1|[]] H2].
        split; [left; now right|assumption]. }
      destruct b; [now apply Hrest|].
      destruct Hw as [<-|Hw]; [|now apply Hrest].
      apply rev_string_units in Hc. destruct Hc as [Hc|[]].
      split; [now right|now apply Hcur].
    + assert (Hcur' : forall e, In e (list_ascii_of_string (String d cur)) ->
                                is_space e = false).
      { simpl. intros e [<-|He]; [assumption|now apply Hcur]. }
      destruct (IH _ _ _ _ Hcur' Hw Hc) as [[H1|H1] H2].
      * split; [left; now right|assumption].
      * simpl in H1. destruct H1 as [<-|H1].
        -- split; [left; now left|assumption].
        -- split; [now right|assumption].
Qed.

(** Every usable query token has at least three code units, is no stop
    word, and is made of lowercase ASCII letters, digits and underscores
    only. *)
Theorem queryWords_shape (query w : string) :
  In w (queryWords query) ->
  (3 <= String.length w)%nat
  /\ ~ In w stopWords
  /\ forall c, In c (list_ascii_of_string w) ->
               is_word c = true /\ between 65 90 (code c) = false.
Proof.
  unfold queryWords, tokens, split. intros H.
  apply filter_In in H. destruct H as [Hw Hu].
  unfold usable in Hu. apply andb_true_iff in Hu. destruct Hu as [Hlen Hstop].
  split; [apply Nat.ltb_lt in Hlen; lia|]. split.
  - intros Hin. apply negb_true_iff in Hstop.
    unfold includes in Hstop.
    assert (existsb (String.eqb w) stopWords = true); [|congruence].
    apply existsb_exists. exists w. split; [assumption|apply String.eqb_refl].
  - intros c Hc.
    destruct (split_go_units (strip (toLowerCase query)) EmptyString false
                w c) as [[H1|[]] H2];
      [simpl; tauto|exact Hw|exact Hc|].
    apply strip_units in H1. destruct H1 as [H1 H3].
    rewrite H2, orb_false_r in H3.
    split; [exact H3|]. eapply toLowerCase_units. exact H1.
Qed.

Lemma queryWords_shape_witness :
  (3 <= String.length "users")%nat
  /\ ~ In "users" stopWords
  /\ forall c, In c (list_ascii_of_string "users") ->
               is_word c = true /\ between 65 90 (code c) = false.
Proof.
  apply (queryWords_shape demo_query "users").
  vm_compute. right. left. reflexivity.
Defined.

(** ** The memory store *)

Lemma trimEnd_idem (s : string) : trimEnd (trimEnd s) = trimEnd s.
Proof.
  induction s as [|c s IH]; [reflexivity|].
  simpl. destruct (trimEnd s) as [|d t] eqn:E.
  - destruct (is_space c) eqn:Ec; [reflexivity|]. simpl. now rewrite Ec.
  - simpl in IH. simpl. destruct (trimEnd t) as [|d' t'] eqn:E'.
    + destruct (is_space d); [discriminate|]. now rewrite IH.
    + now rewrite IH.
Qed.

Lemma trimEnd_head (c : ascii) (s : string) :
  is_space c = false -> exists t, trimEnd (String c s) = String c t.
Proof.
  intros Hc. simpl. destruct (trimEnd s) as [|d t].
  - rewrite Hc. now exists EmptyString.
  - now exists (String d t).
Qed.

Lemma trimStart_head (s : string) :
  trimStart s = EmptyString \/
  exists c t, trimStart s = String c t /\ is_space c = false.
Proof.
  induction s as [|c s IH]; [now left|].
  simpl. destruct (is_space c) eqn:Ec; [exact IH|].
  right. now exists c, s.
Qed.

Lemma trimStart_trim (s : string) : trimStart (trim s) = trim s.
Proof.
  unfold trim. destruct (trimStart_head s) as [->|(c & t & -> & Hc)];
    [reflexivity|].
  destruct (trimEnd_head c t Hc) as (t' & ->). simpl. now rewrite Hc.
Qed.

Lemma trim_idem (s : string) : trim (trim s) = trim s.
Proof.
  unfold trim at 1. rewrite trimStart_trim. unfold trim. apply trimEnd_idem.
Qed.

Lemma trimEnd_blank (s : string) :
  truthy (trimEnd s) = negb (forallb is_space (list_ascii_of_string s)).
Proof.
  induction s as [|c s IH]; [reflexivity|].
  simpl. destruct (trimEnd s) as [|d t]; simpl in *.
  - apply (f_equal negb) in IH. rewrite negb_involutive in IH.
    rewrite <- IH. simpl. destruct (is_space c); reflexivity.
  - apply (f_equal negb) in IH. rewrite negb_involutive in IH.
    rewrite <- IH. simpl. now rewrite andb_false_r.
Qed.

Lemma trimStart_blank (s : string) :
  forallb is_space (list_ascii_of_string (trimStart s))
  = forallb is_space (list_ascii_of_string s).
Proof.
  induction s as [|c s IH]; [reflexivity|].
  simpl. destruct (is_space c) eqn:Ec; [exact IH|].
  simpl. now rewrite Ec.
Qed.

(** [s.trim()] is empty exactly when [s] is made of white space. *)
Lemma trim_blank (s : string) :
  truthy (trim s) = negb (forallb is_space (list_ascii_of_string s)).
Proof. unfold trim. now rewrite trimEnd_blank, trimStart_blank. Qed.

(** An input of white space only leaves the store as it is; any other
    input adds one entry at the end, which is not empty and has no white
    space left at either end. *)
Theorem addMemory_stores_trimmed (newMemory : string)
  (memories : list string) :
  (forallb is_space (list_ascii_of_string newMemory) = true ->
   addMemory newMemory memories = memories)
  /\
  (forallb is_space (list_ascii_of_string newMemory) = false ->
   addMemory newMemory memories = (memories ++ [trim newMemory])%list
   /\ trim newMemory <> EmptyString
   /\ trimStart (trim newMemory) = trim newMemory
   /\ trimEnd (trim newMemory) = trim newMemory).
Proof.
  unfold addMemory. pose proof (trim_blank newMemory) as Hb.
  split; intros H; rewrite H in Hb; simpl in Hb; rewrite Hb.
  - reflexivity.
  - split; [reflexivity|]. split; [|split].
    + intros E. rewrite E in Hb. discriminate.
    + apply trimStart_trim.
    + unfold trim. apply trimEnd_idem.
Qed.

Lemma addMemory_stores_trimmed_witness :
  addMemory "   " demo = demo
  /\ addMemory "  likes tea " ["a"] = ["a"; "likes tea"].
Proof.
  split.
  - apply (proj1 (addMemory_stores_trimmed "   " demo)). reflexivity.
  - apply (proj2 (addMemory_stores_trimmed "  likes tea " ["a"])).
    reflexivity.
Defined.

Lemma remove_index_from_past {A : Type} (i : nat) (l : list A) :
  forall k, (i < k)%nat -> remove_index_from i k l = l.
Proof.
  induction l as [|x l IH]; intros k Hk; simpl; [reflexivity|].
  destruct (Nat.eqb_spec k i); [lia|]. f_equal. apply IH. lia.
Qed.

Lemma remove_index_from_spec {A : Type} (l : list A) :
  forall i k,
    (k <= i)%nat ->
    remove_index_from i k l
    = (firstn (i - k) l ++ skipn (S (i - k)) l)%list.
Proof.
  induction l as [|x l IH]; intros i k Hk; simpl.
  - now destruct (i - k)%nat.
  - destruct (Nat.eqb_spec k i) as [->|Hne].
    + rewrite Nat.sub_diag. simpl. apply remove_index_from_past. lia.
    + rewrite IH by lia.
      replace (i - k)%nat with (S (i - S k)) by lia. reflexivity.
Qed.

(** Deleting the entry at an index of the list takes out that entry and
    keeps the others in their order; an index past the end changes
    nothing. *)
Theorem remove_index_spec {A : Type} (i : nat) (l : list A) :
  ((i < List.length l)%nat ->
   remove_index i l = (firstn i l ++ skipn (S i) l)%list
   /\ List.length (remove_index i l) = (List.length l - 1)%nat)
  /\ ((List.length l <= i)%nat -> remove_index i l = l).
Proof.
  unfold remove_index.
  rewrite remove_index_from_spec by lia. rewrite Nat.sub_0_r.
  split; intros H.
  - split; [reflexivity|].
    rewrite length_app, length_firstn, length_skipn. lia.
  - rewrite firstn_all2 by lia. rewrite skipn_all2 by lia.
    apply app_nil_r.
Qed.

Lemma remove_index_spec_witness :
  (remove_index 1 demo
   = ["User likes coffee"; "User lives in Paris";
      "User prefers concise answers"; "User dislikes spicy food"]
   /\ List.length (remove_index 1 demo) = 4%nat)
  /\ remove_index 7 demo = demo.
Proof.
  split.
  - apply (proj1 (remove_index_spec 1 demo)). simpl. lia.
  - apply (proj2 (remove_index_spec 7 demo)). simpl. lia.
Defined.

(** Adding a memory and then deleting the last entry of the list as it was
    before gives the store back, whatever the input was. *)
Theorem add_then_remove (newMemory : string) (memories : list string) :
  remove_index (List.length memories) (addMemory newMemory memories)
  = memories.
Proof.
  unfold remove_index, addMemory.
  rewrite remove_index_from_spec by lia. rewrite Nat.sub_0_r.
  destruct (truthy (trim newMemory)).
  - rewrite skipn_all2 by (rewrite length_app; simpl; lia).
    rewrite firstn_app, firstn_all, Nat.sub_diag. simpl.
    now rewrite !app_nil_r.
  - rewrite firstn_all, skipn_all2 by lia. apply app_nil_r.
Qed.

Lemma pop_app_last {A : Type} (l : list A) (x : A) :
  pop (l ++ [x]) = Some x.
Proof.
  induction l as [|y l IH]; [reflexivity|].
  simpl. destruct (l ++ [x])%list eqn:E; [now destruct l|exact IH].
Qed.

Lemma pop_skipn_app {A : Type} (l : list A) (x : A) (k : nat) :
  (k <= List.length l)%nat -> pop (skipn k (l ++ [x])) = Some x.
Proof.
  intros Hk. rewrite skipn_app.
  replace (k - List.length l)%nat with 0%nat by lia.
  simpl. apply pop_app_last.
Qed.

(** A memory that was just added is the last element of the result
    whenever the query has no usable token or no memory scores above 5. *)
Theorem new_memory_surfaces (newMemory query : string)
  (memories : list string) :
  forallb is_space (list_ascii_of_string newMemory) = false ->
  queryWords query = [] \/
  relevant (queryWords query) (addMemory newMemory memories) = [] ->
  pop (relevantMemories query (addMemory newMemory memories))
  = Some (trim newMemory).
Proof.
  intros Hb Hexit. unfold addMemory in *.
  rewrite trim_blank, Hb in *. simpl in *.
  unfold relevantMemories.
  set (ms := (memories ++ [trim newMemory])%list) in *.
  assert (Hm : ms <> []) by (unfold ms; now destruct memories).
  assert (HN : List.length ms = S (List.length memories))
    by (unfold ms; rewrite length_app; simpl; lia).
  destruct (queryWords query) as [|w ws] eqn:Eq.
  - rewrite (exit_no_query_word _ _ _ Hm Eq), slice_tail by lia.
    rewrite HN. unfold ms. apply pop_skipn_app. lia.
  - destruct Hexit as [Hexit|Hexit]; [discriminate|].
    assert (Hq : queryWords query <> []) by (rewrite Eq; discriminate).
    rewrite <- Eq in Hexit.
    rewrite (exit_no_match _ _ _ Hq Hexit).
    change (-3)%Z with (Z.opp 3). rewrite slice_tail by lia.
    rewrite HN. unfold ms. apply pop_skipn_app. lia.
Qed.

Lemma new_memory_surfaces_witness :
  pop (relevantMemories "the and for" (addMemory " likes tea " demo))
  = Some "likes tea".
Proof.
  apply (new_memory_surfaces " likes tea " "the and for" demo).
  - reflexivity.
  - left. vm_compute. reflexivity.
Defined.

(** ** The choice of a parser in [parseFile] *)

Lemma split_on_go_nonempty (sep : ascii) (s cur : string) :
  split_on_go sep s cur <> [].
Proof.
  revert cur. induction s as [|c s IH]; intros cur; simpl; [discriminate|].
  destruct (Ascii.eqb c sep); [discriminate|apply IH].
Qed.

Lemma pop_cons {A : Type} (x : A) (l : list A) :
  l <> [] -> pop (x :: l) = pop l.
Proof. destruct l; [contradiction|reflexivity]. Qed.

Lemma pop_map {A B : Type} (f : A -> B) (l : list A) :
  pop (map f l) = option_map f (pop l).
Proof.
  induction l as [|x l IH]; [reflexivity|].
  destruct l as [|y l]; [reflexivity|].
  change (pop (f x :: map f (y :: l)) = option_map f (pop (y :: l))).
  rewrite pop_cons by discriminate. exact IH.
Qed.

Lemma rev_string_twice (s a b : string) :
  rev_string a (rev_string b s) = rev_string (s ++ a) b.
Proof.
  revert a b. induction s as [|c s IH]; intros a b; simpl; [reflexivity|].
  now rewrite IH.
Qed.

Lemma append_empty_r (s : string) : s ++ EmptyString = s.
Proof. induction s as [|c s IH]; simpl; [reflexivity|now rewrite IH]. Qed.

(** A string without the separator is one piece. *)
Lemma split_on_go_one_piece (sep : ascii) (s cur : string) :
  forallb (fun c => negb (Ascii.eqb c sep)) (list_ascii_of_string s) = true ->
  split_on_go sep s cur = [rev_string EmptyString (rev_string cur s)].
Proof.
  revert cur. induction s as [|c s IH]; intros cur H; simpl in *;
    [reflexivity|].
  apply andb_true_iff in H. destruct H as [Hc Hs].
  apply negb_true_iff in Hc. rewrite Hc. now apply IH.
Qed.

(** The last piece is the one after the last separator. *)
Lemma split_on_go_last (sep : ascii) (base ext : string) :
  forall cur,
    pop (split_on_go sep (base ++ String sep ext) cur)
    = pop (split_on_go sep ext EmptyString).
Proof.
  induction base as [|c base IH]; intros cur; simpl.
  - rewrite Ascii.eqb_refl. apply pop_cons, split_on_go_nonempty.
  - destruct (Ascii.eqb c sep).
    + rewrite pop_cons by apply split_on_go_nonempty. apply IH.
    + apply IH.
Qed.

(** The extension that [parseFile] looks at is the text after the last
    dot of the name, in lower case; a name without a dot is its own
    extension. *)
Theorem extension_after_last_dot (base ext : string) :
  forallb (fun c => negb (Ascii.eqb c ".")) (list_ascii_of_string ext)
  = true ->
  extension_of (base ++ "." ++ ext) = Some (toLowerCase ext)
  /\ extension_of ext = Some (toLowerCase ext).
Proof.
  intros H. unfold extension_of, split_on. split.
  - change ("." ++ ext) with (String "." ext).
    rewrite split_on_go_last, split_on_go_one_piece by exact H.
    simpl. now rewrite rev_string_twice, append_empty_r.
  - rewrite split_on_go_one_piece by exact H.
    simpl. now rewrite rev_string_twice, append_empty_r.
Qed.

Lemma extension_after_last_dot_witness :
  extension_of ("archive.tar" ++ "." ++ "PDF") = Some "pdf"
  /\ extension_of "PDF" = Some "pdf".
Proof.
  apply (extension_after_last_dot "archive.tar" "PDF"). reflexivity.
Defined.

Lemma lower_char_dot (c : ascii) :
  Ascii.eqb (lower_char c) "." = Ascii.eqb c ".".
Proof. destruct c as [[] [] [] [] [] [] [] []]; reflexivity. Qed.

Lemma toLowerCase_rev_string (s acc : string) :
  toLowerCase (rev_string acc s)
  = rev_string (toLowerCase acc) (toLowerCase s).
Proof.
  revert acc. induction s as [|c s IH]; intros acc; simpl; [reflexivity|].
  now rewrite IH.
Qed.

Lemma split_on_go_lower (s cur : string) :
  split_on_go "." (toLowerCase s) (toLowerCase cur)
  = map toLowerCase (split_on_go "." s cur).
Proof.
  revert cur. induction s as [|c s IH]; intros cur; simpl.
  - now rewrite toLowerCase_rev_string.
  - rewrite lower_char_dot. destruct (Ascii.eqb c ".").
    + simpl. rewrite toLowerCase_rev_string. f_equal.
      apply (IH EmptyString).
    + apply (IH (String c cur)).
Qed.

Lemma extension_of_lower (name : string) :
  extension_of name = pop (split_on "." (toLowerCase name)).
Proof.
  unfold extension_of, split_on.
  pose proof (split_on_go_lower name EmptyString) as H.
  cbn [toLowerCase] in H. rewrite H. symmetry. apply pop_map.
Qed.

Lemma lower_char_lower_ascii (c : ascii) :
  lower_char (lower_ascii c) = lower_char c.
Proof. destruct c as [[] [] [] [] [] [] [] []]; reflexivity. Qed.

Lemma toLowerCase_fold_ascii_case (s : string) :
  toLowerCase (fold_ascii_case s) = toLowerCase s.
Proof.
  induction s as [|c s IH]; simpl; [reflexivity|].
  now rewrite lower_char_lower_ascii, IH.
Qed.

(** Two names that differ only in the case of the ASCII letters A-Z have
    the same extension and get the same parser. *)
Theorem dispatch_ignores_case (name1 name2 : string) :
  fold_ascii_case name1 = fold_ascii_case name2 ->
  extension_of name1 = extension_of name2
  /\ dispatch (extension_of name1) = dispatch (extension_of name2).
Proof.
  intros H. apply (f_equal toLowerCase) in H.
  rewrite !toLowerCase_fold_ascii_case in H.
  rewrite !extension_of_lower, H. split; reflexivity.
Qed.

Lemma dispatch_ignores_case_witness :
  extension_of "Report.PDF" = extension_of "report.pdf"
  /\ dispatch (extension_of "Report.PDF")
     = dispatch (extension_of "report.pdf").
Proof. apply (dispatch_ignores_case "Report.PDF" "report.pdf"). reflexivity.
Defined.

Section ParsingFacts.

Variable pdf_pages : File.t -> result (list (list string)).
Variable xlsx_sheets : File.t -> result (list (string * string)).
Variable mammoth_raw_text : File.t -> result string.
Variable file_text : File.t -> result string.

Let parse : File.t -> result FileData.t :=
  parseFile pdf_pages xlsx_sheets mammoth_raw_text file_text.

(** Whatever the libraries do, a file whose extension is not in the lists
    is rejected with "Unsupported file format", and a file that is parsed
    has a listed extension and keeps its name, type and size. *)
Theorem parseFile_contract (file : File.t) :
  (dispatch (extension_of (File.name file)) = None ->
   parse file = Err "Unsupported file format")
  /\
  (forall d, parse file = Ok d ->
     dispatch (extension_of (File.name file)) <> None
     /\ FileData.name d = File.name file
     /\ FileData.type d = File.type file
     /\ FileData.size d = File.size file).
Proof.
  unfold parse, parseFile. split.
  - intros ->. reflexivity.
  - intros d H.
    destruct (dispatch (extension_of (File.name file))) as [p|];
      [|discriminate].
    split; [discriminate|].
    destruct p;
      match type of H with
      | match ?c with _ => _ end = _ => destruct c; [|discriminate]
      end;
      injection H as <-; repeat split.
Qed.

Lemma parse_each_spec (files : list File.t) :
  fst (parse_each pdf_pages xlsx_sheets mammoth_raw_text file_text files)
  = flat_map (fun f => match parse f with Ok d => [d] | Err _ => [] end)
      files
  /\ snd (parse_each pdf_pages xlsx_sheets mammoth_raw_text file_text files)
     = flat_map (fun f => match parse f with
                          | Ok _ => []
                          | Err _ => [File.name f]
                          end) files.
Proof.
  induction files as [|f files [IH1 IH2]]; [split; reflexivity|].
  simpl.
  destruct (parse_each pdf_pages xlsx_sheets mammoth_raw_text file_text
              files) as [newFiles failed].
  simpl in IH1, IH2. unfold parse.
  destruct (parseFile pdf_pages xlsx_sheets mammoth_raw_text file_text f);
    simpl; rewrite IH1, IH2; split; reflexivity.
Qed.

(** [handleFileChange] keeps the files already attached and appends the
    files that parse, in the order of the selection; the names reported
    are those of the files that do not parse, in that order. Every
    selected file is attached or reported. *)
Theorem handleFileChange_partition (files : list File.t)
  (attachedFiles : list FileData.t) :
  let '(attached, failed) :=
    handleFileChange pdf_pages xlsx_sheets mammoth_raw_text file_text
      (Some files) attachedFiles in
  attached
  = (attachedFiles
     ++ flat_map (fun f => match parse f with Ok d => [d] | Err _ => [] end)
          files)%list
  /\ failed
     = flat_map (fun f => match parse f with
                          | Ok _ => []
                          | Err _ => [File.name f]
                          end) files
  /\ (forall f, In f files ->
        (exists d, parse f = Ok d /\ In d attached)
        \/ (exists e, parse f = Err e /\ In (File.name f) failed))
  /\ (List.length attached + List.length failed
      = List.length attachedFiles + List.length files)%nat.
Proof.
  unfold handleFileChange.
  pose proof (parse_each_spec files) as [H1 H2].
  destruct (parse_each pdf_pages xlsx_sheets mammoth_raw_text file_text
              files) as [newFiles failed].
  simpl in H1, H2. subst. split; [reflexivity|]. split; [reflexivity|].
  split.
  - intros f Hf. destruct (parse f) as [d|e] eqn:Ef.
    + left. exists d. split; [reflexivity|].
      apply in_or_app. right. apply in_flat_map. exists f.
      split; [exact Hf|]. rewrite Ef. now left.
    + right. exists e. split; [reflexivity|].
      apply in_flat_map. exists f. split; [exact Hf|]. rewrite Ef. now left.
  - rewrite length_app. clear.
    induction files as [|f files IH]; simpl; [lia|].
    rewrite !length_app. destruct (parse f); simpl; lia.
Qed.

Lemma parse_all_spec (files : list File.t) :
  match parse_all pdf_pages xlsx_sheets mammoth_raw_text file_text files with
  | Ok newFiles =>
      map Ok newFiles = map parse files
  | Err _ => exists f e, In f files /\ parse f = Err e
  end.
Proof.
  induction files as [|f files IH]; simpl; [reflexivity|].
  unfold parse at 1 3.
  destruct (parseFile pdf_pages xlsx_sheets mammoth_raw_text file_text f)
    as [d|e] eqn:Ef.
  - destruct (parse_all pdf_pages xlsx_sheets mammoth_raw_text file_text
                files) as [newFiles|e'].
    + simpl. now rewrite IH.
    + destruct IH as (g & e & Hg & He). exists g, e. split; [now right|].
      exact He.
  - exists f, e. split; [now left|exact Ef].
Qed.

(** [onDrop] attaches all the dropped files or none: when every file
    parses they are appended in order, and when one does not, the files
    attached stay as they were and the alert is raised. *)
Theorem onDrop_all_or_nothing (files : list File.t)
  (attachedFiles : list FileData.t) :
  let '(attached, alerted) :=
    onDrop pdf_pages xlsx_sheets mammoth_raw_text file_text (Some files)
      attachedFiles in
  (alerted = false
   /\ exists newFiles,
        attached = (attachedFiles ++ newFiles)%list
        /\ map Ok newFiles = map parse files)
  \/ (alerted = true
      /\ attached = attachedFiles
      /\ exists f e, In f files /\ parse f = Err e).
Proof.
  unfold onDrop. destruct files as [|f files].
  - left. split; [reflexivity|]. exists []. split; [|reflexivity].
    now rewrite app_nil_r.
  - pose proof (parse_all_spec (f :: files)) as H.
    destruct (parse_all pdf_pages xlsx_sheets mammoth_raw_text file_text
                (f :: files)) as [newFiles|e].
    + left. split; [reflexivity|]. now exists newFiles.
    + right. split; [reflexivity|]. split; [reflexivity|exact H].
Qed.

End ParsingFacts.

Lemma parseFile_contract_witness :
  let text_only := fun f : File.t => Ok (File.bytes f) in
  let none := fun _ : File.t => @Err (list (list string)) "no pdf" in
  let nosheet := fun _ : File.t => @Err (list (string * string)) "no xlsx" in
  parseFile none nosheet text_only text_only
    (File.mk "README" "text/plain" 3 "abc")
  = Err "Unsupported file format"
  /\ FileData.name (FileData.mk "notes.TXT" "abc" "text/plain" 3)
     = "notes.TXT".
Proof.
  intros text_only none nosheet. split.
  - apply (proj1 (parseFile_contract none nosheet text_only text_only
                    (File.mk "README" "text/plain" 3 "abc"))).
    reflexivity.
  - apply (proj2 (parseFile_contract none nosheet text_only text_only
                    (File.mk "notes.TXT" "text/plain" 3 "abc"))
             (FileData.mk "notes.TXT" "abc" "text/plain" 3)).
    reflexivity.
Defined.

(** ** The list of sessions *)

Lemma current_valid_iff (st : AppState) :
  current_valid st <->
  exists s, In s (sessions st) /\ ChatSession.id s = currentSessionId st.
Proof.
  unfold current_valid, currentSession. split.
  - intros (s & _ & Hid & Hin). now exists s.
  - intros (s & Hin & Hid).
    destruct (find _ (sessions st)) as [s'|] eqn:E.
    + apply find_some in E. destruct E as [Hin' Hid'].
      apply String.eqb_eq in Hid'. now exists s'.
    + apply (find_none _ _ E) in Hin. rewrite Hid, String.eqb_refl in Hin.
      discriminate.
Qed.

(** After [handleNewChat] and after [deleteSession] the list of sessions
    is not empty; [handleNewChat] makes the new session the current one,
    and [deleteSession] keeps the current identifier on a session of the
    list when it was on one before. *)
Theorem session_handlers_keep_current (id newId : string) (now innerWidth : Z)
  (st : AppState) :
  currentSession (handleNewChat newId now innerWidth st)
  = Some (ChatSession.mk newId "New Chat" [] now)
  /\ sessions (deleteSession id newId now innerWidth st) <> []
  /\ (current_valid st ->
      current_valid (deleteSession id newId now innerWidth st)).
Proof.
  split; [|split].
  - unfold currentSession, handleNewChat. simpl.
    now rewrite String.eqb_refl.
  - unfold deleteSession. destruct (filter _ (sessions st)); discriminate.
  - intros Hv. apply current_valid_iff in Hv. destruct Hv as (s & Hin & Hid).
    apply current_valid_iff. unfold deleteSession.
    destruct (filter _ (sessions st)) as [|first rest] eqn:E.
    + eexists. split; [left; reflexivity|reflexivity].
    + cbn [sessions currentSessionId].
      destruct (String.eqb_spec (currentSessionId st) id) as [Hc|Hc].
      * exists first. split; [now left|reflexivity].
      * exists s. split; [|exact Hid].
        rewrite <- E. apply filter_In. split; [exact Hin|].
        apply negb_true_iff. apply String.eqb_neq. congruence.
Qed.

Lemma session_handlers_keep_current_witness :
  let st := mkApp [ChatSession.mk "1" "New Chat" [] 0;
                   ChatSession.mk "2" "Trip" [] 5] "1" true in
  current_valid (deleteSession "1" "x" 9 1024 st).
Proof.
  intros st.
  apply (proj2 (proj2 (session_handlers_keep_current "1" "x" 9 1024 st))).
  apply current_valid_iff. eexists. split; [left; reflexivity|reflexivity].
Defined.

(** Deleting the only session does not take it out: when every session
    bears the identifier deleted, the result is the old list with a new
    empty session in front, which becomes the current one. Otherwise no
    session with that identifier is left and the others keep their
    order. *)
Theorem delete_last_session (id newId : string) (now innerWidth : Z)
  (st : AppState) :
  ((forall s, In s (sessions st) -> ChatSession.id s = id) ->
   sessions (deleteSession id newId now innerWidth st)
   = ChatSession.mk newId "New Chat" [] now :: sessions st
   /\ currentSessionId (deleteSession id newId now innerWidth st) = newId)
  /\
  ((exists s, In s (sessions st) /\ ChatSession.id s <> id) ->
   sessions (deleteSession id newId now innerWidth st)
   = filter (fun s => negb (String.eqb (ChatSession.id s) id)) (sessions st)
   /\ forall s, In s (sessions (deleteSession id newId now innerWidth st)) ->
                ChatSession.id s <> id).
Proof.
  unfold deleteSession. split.
  - intros Hall.
    destruct (filter _ (sessions st)) as [|first rest] eqn:E;
      [split; reflexivity|exfalso].
    assert (Hin : In first (filter (fun s => negb (ChatSession.id s =? id))
                              (sessions st))) by (rewrite E; now left).
    apply filter_In in Hin. destruct Hin as [Hin Hne].
    rewrite (Hall _ Hin), String.eqb_refl in Hne. discriminate.
  - intros (s & Hin & Hne).
    destruct (filter _ (sessions st)) as [|first rest] eqn:E.
    + exfalso.
      assert (H : In s (filter (fun s => negb (ChatSession.id s =? id))
                          (sessions st))).
      { apply filter_In. split; [exact Hin|].
        apply negb_true_iff. now apply String.eqb_neq. }
      rewrite E in H. exact H.
    + cbn [sessions]. split; [reflexivity|].
      intros s' Hs'. rewrite <- E in Hs'. apply filter_In in Hs'.
      destruct Hs' as [_ Hs']. apply negb_true_iff in Hs'.
      now apply String.eqb_neq.
Qed.

Lemma delete_last_session_witness :
  let only := ChatSession.mk "1" "New Chat" [] 0 in
  let st := mkApp [only] "1" true in
  (sessions (deleteSession "1" "x" 9 1024 st)
   = [ChatSession.mk "x" "New Chat" [] 9; only]
   /\ currentSessionId (deleteSession "1" "x" 9 1024 st) = "x")
  /\ sessions (deleteSession "2" "x" 9 1024 st) = [only].
Proof.
  intros only st. split.
  - apply (proj1 (delete_last_session "1" "x" 9 1024 st)).
    intros s [<-|[]]. reflexivity.
  - apply (proj2 (delete_last_session "2" "x" 9 1024 st)).
    exists only. split; [now left|discriminate].
Defined.

(** *** The title of a session *)

Lemma length_append (a b : string) :
  String.length (a ++ b) = (String.length a + String.length b)%nat.
Proof. induction a as [|c a IH]; simpl; [reflexivity|now rewrite IH]. Qed.

Lemma length_substring_0 (n : nat) (s : string) :
  (String.length (substring 0 n s) <= n)%nat.
Proof.
  revert s. induction n as [|n IH]; intros [|c s]; simpl; try lia.
  specialize (IH s). lia.
Qed.

(** The title given on the first message of a session is never empty; for
    a message that is not empty it has at most 33 code units, and a
    message of at most 30 code units is its own title. (An empty message
    takes the name of the first attached file, whatever its length.) *)
Theorem newTitle_first_message (session : ChatSession.t)
  (messageContent : string) (attachedFiles : list FileData.t) :
  ChatSession.messages session = [] ->
  newTitle session messageContent attachedFiles <> EmptyString
  /\ (messageContent <> EmptyString ->
      (String.length (newTitle session messageContent attachedFiles)
       <= 33)%nat)
  /\ (messageContent <> EmptyString ->
      (String.length messageContent <= 30)%nat ->
      newTitle session messageContent attachedFiles = messageContent).
Proof.
  intros Hm. unfold newTitle. rewrite Hm.
  destruct (Nat.ltb_spec 30 (String.length messageContent)) as [Hl|Hl].
  - split; [|split].
    + intros E. apply (f_equal String.length) in E.
      rewrite length_append in E. simpl in E. lia.
    + intros _. rewrite length_append. simpl.
      pose proof (length_substring_0 30 messageContent). lia.
    + lia.
  - destruct messageContent as [|c mc]; simpl.
    + split; [|split; intros H; now elim H].
      destruct attachedFiles as [|f fs]; [discriminate|].
      destruct (FileData.name f); discriminate.
    + split; [discriminate|]. split; [simpl in Hl; lia|reflexivity].
Qed.

Lemma newTitle_first_message_witness :
  let session := ChatSession.mk "1" "New Chat" [] 0 in
  let long := "Tell me about the user's job and a few other things" in
  newTitle session long [] <> EmptyString
  /\ (long <> EmptyString ->
      (String.length (newTitle session long []) <= 33)%nat)
  /\ (long <> EmptyString -> (String.length long <= 30)%nat ->
      newTitle session long [] = long).
Proof.
  intros session long.
  apply (newTitle_first_message session long []). reflexivity.
Defined.

(** *** The end of a turn, feedback, search *)

Lemma filter_app_last_errors (msgs : list Message.t) (message : Message.t) :
  errors_only_last
    (filter (fun m => negb (is_error m)) msgs ++ [message]).
Proof.
  intros i m Hi He. rewrite length_app. simpl.
  destruct (Nat.lt_ge_cases i
              (List.length (filter (fun m => negb (is_error m)) msgs)))
    as [Hlt|Hge].
  - rewrite nth_error_app1 in Hi by exact Hlt.
    apply nth_error_In, filter_In in Hi. destruct Hi as [_ Hi].
    rewrite He in Hi. discriminate.
  - assert (Hlen : (i < List.length
                        (filter (fun m => negb (is_error m)) msgs
                         ++ [message]))%nat)
      by (apply nth_error_Some; congruence).
    rewrite length_app in Hlen. simpl in Hlen. lia.
Qed.

(** When a turn ends, with the answer of the model or with the error
    message, the sessions that are not the current one are left as they
    are, and in a current one the new message is the last and is the only
    one that may be an error message: the earlier error messages are
    gone. *)
Theorem appendReply_errors_last (cur : string) (message : Message.t)
  (prev : list ChatSession.t) :
  List.length (appendReply cur message prev) = List.length prev
  /\ forall k s',
       nth_error (appendReply cur message prev) k = Some s' ->
       exists s,
         nth_error prev k = Some s
         /\ ChatSession.id s' = ChatSession.id s
         /\ (ChatSession.id s <> cur -> s' = s)
         /\ (ChatSession.id s = cur ->
             pop (ChatSession.messages s') = Some message
             /\ errors_only_last (ChatSession.messages s')).
Proof.
  unfold appendReply, update_current. split; [apply length_map|].
  intros k s' Hk. rewrite nth_error_map in Hk.
  destruct (nth_error prev k) as [s|]; [|discriminate].
  injection Hk as <-. exists s. split; [reflexivity|].
  destruct (String.eqb_spec (ChatSession.id s) cur) as [Hc|Hc].
  - split; [reflexivity|]. split; [contradiction|]. intros _. simpl.
    split; [apply pop_app_last|apply filter_app_last_errors].
  - split; [reflexivity|]. split; [reflexivity|contradiction].
Qed.

Lemma update_current_twice (cur : string)
  (f g : ChatSession.t -> ChatSession.t) (l : list ChatSession.t) :
  (forall s, ChatSession.id (g s) = ChatSession.id s) ->
  update_current cur f (update_current cur g l)
  = update_current cur (fun s => f (g s)) l.
Proof.
  intros Hg. unfold update_current. rewrite map_map.
  apply map_ext. intros s.
  destruct (String.eqb (ChatSession.id s) cur) eqn:E.
  - now rewrite Hg, E.
  - now rewrite E.
Qed.

Lemma mapi_from_twice {A : Type} (f g : A -> nat -> A) (l : list A) :
  forall k,
    mapi_from f k (mapi_from g k l)
    = mapi_from (fun x i => f (g x i) i) k l.
Proof.
  induction l as [|x l IH]; intros k; simpl; [reflexivity|].
  now rewrite IH.
Qed.

Lemma mapi_from_ext {A B : Type} (f g : A -> nat -> B) (l : list A) :
  (forall x i, f x i = g x i) ->
  forall k, mapi_from f k l = mapi_from g k l.
Proof.
  intros H. induction l as [|x l IH]; intros k; simpl; [reflexivity|].
  now rewrite H, IH.
Qed.

Lemma toggle_feedback_thrice (fb : Feedback.t) (m : Message.t) :
  toggle_feedback fb (toggle_feedback fb (toggle_feedback fb m))
  = toggle_feedback fb m.
Proof.
  destruct m as [r c t e s [[]|] fs]; destruct fb; reflexivity.
Qed.

Lemma mapi_from_nth_inv {A B : Type} (f : A -> nat -> B) (l : list A) :
  forall k idx y,
    nth_error (mapi_from f k l) idx = Some y ->
    exists x, nth_error l idx = Some x /\ y = f x (k + idx)%nat.
Proof.
  intros k idx y H.
  destruct (nth_error l idx) as [x|] eqn:E.
  - exists x. split; [reflexivity|].
    rewrite (mapi_from_nth f l k idx x E) in H. congruence.
  - exfalso. apply nth_error_None in E.
    assert (Hlt : (idx < List.length (mapi_from f k l))%nat)
      by (apply nth_error_Some; congruence).
    rewrite mapi_from_length in Hlt. lia.
Qed.

(** A press of a feedback button changes one thing only: in a current
    session, the message at the index given gets the feedback of the
    button, or loses it when it already had that feedback; every other
    message, every other field and every other session stay as they are.
    So the button switches the feedback on and off: after one press, two
    more presses give the same sessions again. *)
Theorem handleFeedback_toggles (cur : string) (messageIndex : nat)
  (fb : Feedback.t) (prev : list ChatSession.t) :
  (forall k s',
     nth_error (handleFeedback cur messageIndex fb prev) k = Some s' ->
     exists s,
       nth_error prev k = Some s
       /\ (ChatSession.id s <> cur -> s' = s)
       /\ (ChatSession.id s = cur ->
           ChatSession.id s' = ChatSession.id s
           /\ ChatSession.title s' = ChatSession.title s
           /\ ChatSession.updatedAt s' = ChatSession.updatedAt s
           /\ List.length (ChatSession.messages s')
              = List.length (ChatSession.messages s)
           /\ forall idx m',
                nth_error (ChatSession.messages s') idx = Some m' ->
                exists m,
                  nth_error (ChatSession.messages s) idx = Some m
                  /\ (idx <> messageIndex -> m' = m)
                  /\ (idx = messageIndex ->
                      (Message.feedback m = Some fb ->
                       Message.feedback m' = None)
                      /\ (Message.feedback m <> Some fb ->
                          Message.feedback m' = Some fb)
                      /\ Message.role m' = Message.role m
                      /\ Message.content m' = Message.content m
                      /\ Message.timestamp m' = Message.timestamp m
                      /\ Message.isError m' = Message.isError m
                      /\ Message.sources m' = Message.sources m
                      /\ Message.files m' = Message.files m)))
  /\ handleFeedback cur messageIndex fb
       (handleFeedback cur messageIndex fb
          (handleFeedback cur messageIndex fb prev))
     = handleFeedback cur messageIndex fb prev.
Proof.
  split.
  - unfold handleFeedback, update_current. intros k s' Hk.
    rewrite nth_error_map in Hk.
    destruct (nth_error prev k) as [s|]; [|discriminate].
    injection Hk as <-. exists s. split; [reflexivity|].
    destruct (String.eqb_spec (ChatSession.id s) cur) as [Hc|Hc];
      [|split; [reflexivity|contradiction]].
    split; [contradiction|]. intros _. cbn [ChatSession.id ChatSession.title
      ChatSession.updatedAt ChatSession.messages].
    split; [reflexivity|]. split; [reflexivity|]. split; [reflexivity|].
    split; [apply mapi_from_length|].
    intros idx m' Hm'. unfold mapi in Hm'.
    apply mapi_from_nth_inv in Hm'. destruct Hm' as (m & Hm & ->).
    exists m. split; [exact Hm|]. simpl.
    destruct (Nat.eqb_spec idx messageIndex) as [Hi|Hi].
    + split; [contradiction|]. intros _.
      destruct m as [r c t e srcs [[]|] fs]; destruct fb; simpl;
        repeat split; try reflexivity; try discriminate;
        intros H; now elim H.
    + split; [reflexivity|contradiction].
  - unfold handleFeedback.
    rewrite !update_current_twice by reflexivity.
    unfold update_current. apply map_ext. intros s.
    destruct (String.eqb (ChatSession.id s) cur); [|reflexivity].
    simpl. f_equal. unfold mapi. rewrite !mapi_from_twice.
    apply mapi_from_ext. intros m i.
    destruct (i =? messageIndex)%nat; [|reflexivity].
    apply toggle_feedback_thrice.
Qed.

Lemma handleFeedback_toggles_witness :
  Message.feedback
    (Message.mk Role.user "hello" 1 None None (Some Feedback.positive) None)
  = Some Feedback.positive.
Proof.
  destruct (proj1 (handleFeedback_toggles "1" 0 Feedback.positive
                     [demo_session])
              0%nat
              (ChatSession.mk "1" "hello"
                 [Message.mk Role.user "hello" 1 None None
                    (Some Feedback.positive) None; demo_error] 3)
              eq_refl)
    as (s & Hs & _ & H).
  injection Hs as <-.
  destruct (H eq_refl) as (_ & _ & _ & _ & Hm).
  destruct (Hm 0%nat _ eq_refl) as (m & Hq & _ & Ht).
  injection Hq as <-.
  apply (proj1 (proj2 (Ht eq_refl))). discriminate.
Defined.

Lemma lower_char_space (c : ascii) : is_space (lower_char c) = is_space c.
Proof. destruct c as [[] [] [] [] [] [] [] []]; reflexivity. Qed.

Lemma toLowerCase_blank (s : string) :
  forallb is_space (list_ascii_of_string (toLowerCase s))
  = forallb is_space (list_ascii_of_string s).
Proof.
  induction s as [|c s IH]; simpl; [reflexivity|].
  now rewrite lower_char_space, IH.
Qed.

Lemma filter_all {A : Type} (l : list A) : filter (fun _ => true) l = l.
Proof. induction l as [|x l IH]; simpl; [reflexivity|now rewrite IH]. Qed.

(** A search made of white space only shows every session, and the letter
    case of the search does not matter. *)
Theorem filteredSessions_query (searchQuery : string)
  (sessions : list ChatSession.t) :
  (forallb is_space (list_ascii_of_string searchQuery) = true ->
   filteredSessions searchQuery sessions = sessions)
  /\ filteredSessions (toLowerCase searchQuery) sessions
     = filteredSessions searchQuery sessions.
Proof.
  unfold filteredSessions. split.
  - intros H. rewrite trim_blank, H. simpl. apply filter_all.
  - rewrite !trim_blank, toLowerCase_blank, toLowerCase_idem. reflexivity.
Qed.

Lemma filteredSessions_query_witness :
  let l := [ChatSession.mk "1" "Trip to Paris" [] 0] in
  filteredSessions "  " l = l
  /\ filteredSessions (toLowerCase "PARIS") l = filteredSessions "PARIS" l.
Proof.
  intros l. split.
  - apply (proj1 (filteredSessions_query "  " l)). reflexivity.
  - apply (proj2 (filteredSessions_query "PARIS" l)).
Defined.

(** ** The stream of the answer *)

Lemma add_source_keeps (srcs : list Source.t) (c : option Web.t) :
  NoDup (map Source.uri srcs) ->
  NoDup (map Source.uri (add_source srcs c))
  /\ forall s, In s (add_source srcs c) ->
       In s srcs
       \/ (c = Some (Web.mk (Some (Source.uri s)) (Some (Source.title s)))
           /\ truthy (Source.uri s) = true
           /\ truthy (Source.title s) = true).
Proof.
  intros Hnd. unfold add_source.
  destruct c as [[[u|] [t|]]|]; try (split; [exact Hnd|now left]).
  destruct (truthy u && truthy t) eqn:Et; [|split; [exact Hnd|now left]].
  apply andb_true_iff in Et. destruct Et as [Hu Ht].
  destruct (find _ srcs) as [s0|] eqn:Ef; [split; [exact Hnd|now left]|].
  split.
  - rewrite map_app. apply NoDup_app; [exact Hnd|repeat constructor; tauto|].
    intros a Ha [<-|[]]. apply in_map_iff in Ha.
    destruct Ha as (s & Hs & Hin).
    apply (find_none _ _ Ef) in Hin. rewrite Hs, String.eqb_refl in Hin.
    discriminate.
  - intros s Hs. apply in_app_or in Hs. destruct Hs as [Hs|[<-|[]]];
      [now left|right]. simpl. now repeat split.
Qed.

Lemma add_sources_keep (chunks : list (option Web.t)) :
  forall srcs,
    NoDup (map Source.uri srcs) ->
    NoDup (map Source.uri (fold_left add_source chunks srcs))
    /\ forall s, In s (fold_left add_source chunks srcs) ->
         In s srcs
         \/ (In (Some (Web.mk (Some (Source.uri s)) (Some (Source.title s))))
               chunks
             /\ truthy (Source.uri s) = true
             /\ truthy (Source.title s) = true).
Proof.
  induction chunks as [|c chunks IH]; intros srcs Hnd; simpl.
  - split; [exact Hnd|now left].
  - destruct (add_source_keeps srcs c Hnd) as [Hnd' Hin'].
    destruct (IH _ Hnd') as [Hnd'' Hin'']. split; [exact Hnd''|].
    intros s Hs. destruct (Hin'' s Hs) as [H|(H & Hu & Ht)].
    + destruct (Hin' s H) as [H'|(-> & Hu & Ht)]; [now left|right].
      split; [now left|now split].
    + right. split; [now right|now split].
Qed.

Lemma read_stream_from (stream : list Chunk.t) :
  forall content srcs,
    NoDup (map Source.uri srcs) ->
    let '(content', srcs') := fold_left read_chunk stream (content, srcs) in
    content'
    = content ++ fold_right String.append EmptyString
                   (map (fun c => or_empty (Chunk.text c)) stream)
    /\ NoDup (map Source.uri srcs')
    /\ forall s, In s srcs' ->
         In s srcs
         \/ (truthy (Source.uri s) = true
             /\ truthy (Source.title s) = true
             /\ exists chunk chunks,
                  In chunk stream
                  /\ Chunk.groundingChunks chunk = Some chunks
                  /\ In (Some (Web.mk (Some (Source.uri s))
                                 (Some (Source.title s)))) chunks).
Proof.
  induction stream as [|chunk stream IH]; intros content srcs Hnd.
  - simpl. rewrite append_empty_r.
    split; [reflexivity|]. split; [exact Hnd|now left].
  - cbn [fold_left read_chunk].
    set (content1 := match Chunk.text chunk with
                     | Some t => if truthy t then content ++ t else content
                     | None => content
                     end).
    set (srcs1 := match Chunk.groundingChunks chunk with
                  | Some chunks => fold_left add_source chunks srcs
                  | None => srcs
                  end).
    assert (Hc : content1 = content ++ or_empty (Chunk.text chunk)).
    { unfold content1. destruct (Chunk.text chunk) as [[|c t]|]; simpl;
        now rewrite ?append_empty_r. }
    assert (Hs : NoDup (map Source.uri srcs1)
                 /\ forall s, In s srcs1 ->
                      In s srcs
                      \/ (truthy (Source.uri s) = true
                          /\ truthy (Source.title s) = true
                          /\ exists chunks,
                               Chunk.groundingChunks chunk = Some chunks
                               /\ In (Some (Web.mk (Some (Source.uri s))
                                              (Some (Source.title s))))
                                    chunks)).
    { unfold srcs1. destruct (Chunk.groundingChunks chunk) as [chunks|].
      - destruct (add_sources_keep chunks srcs Hnd) as [H1 H2].
        split; [exact H1|]. intros s Hin.
        destruct (H2 s Hin) as [H|(H & Hu & Ht)]; [now left|right].
        split; [exact Hu|]. split; [exact Ht|]. now exists chunks.
      - split; [exact Hnd|now left]. }
    destruct Hs as [Hnd1 Hin1].
    specialize (IH content1 srcs1 Hnd1).
    destruct (fold_left read_chunk stream (content1, srcs1))
      as [content' srcs'].
    destruct IH as (IHc & IHn & IHs). split; [|split; [exact IHn|]].
    + rewrite IHc, Hc. simpl. clear.
      induction content as [|c content IH]; simpl; [reflexivity|].
      now rewrite IH.
    + intros s Hin. destruct (IHs s Hin) as [H|(Hu & Ht & c & cs & H1 & H2)].
      * destruct (Hin1 s H) as [H'|(Hu & Ht & cs & H1 & H2)]; [now left|].
        right. split; [exact Hu|]. split; [exact Ht|].
        exists chunk, cs. split; [now left|]. now split.
      * right. split; [exact Hu|]. split; [exact Ht|].
        exists c, cs. split; [now right|]. now split.
Qed.

(** The sources collected from a stream have pairwise different URIs, a
    URI and a title that are not empty, and each one is a grounding chunk
    of the stream; the content of the answer is the texts of the chunks
    put end to end. *)
Theorem read_stream_sources (stream : list Chunk.t) :
  let '(assistantContent, srcs) := read_stream stream in
  assistantContent
  = fold_right String.append EmptyString
      (map (fun c => or_empty (Chunk.text c)) stream)
  /\ NoDup (map Source.uri srcs)
  /\ forall s, In s srcs ->
       truthy (Source.uri s) = true
       /\ truthy (Source.title s) = true
       /\ exists chunk chunks,
            In chunk stream
            /\ Chunk.groundingChunks chunk = Some chunks
            /\ In (Some (Web.mk (Some (Source.uri s))
                           (Some (Source.title s)))) chunks.
Proof.
  unfold read_stream.
  pose proof (read_stream_from stream EmptyString [] (NoDup_nil _)) as H.
  destruct (fold_left read_chunk stream (EmptyString, [])) as [content srcs].
  destruct H as (Hc & Hn & Hs). split; [exact Hc|]. split; [exact Hn|].
  intros s Hin. destruct (Hs s Hin) as [[]|H]. exact H.
Qed.

(** ** The history sent with a message *)

(** The history that [sendMessageStream] passes on is made of the last 15
    messages at most, in their order, each with its role and its
    content. *)
Theorem chat_history_window (history : list Message.t) :
  chat_history history
  = map to_content
      (skipn (List.length history - Nat.min 15 (List.length history))
         history)
  /\ (List.length (chat_history history) <= 15)%nat.
Proof.
  unfold chat_history. change (-15)%Z with (Z.opp 15).
  rewrite slice_tail by lia. split; [reflexivity|].
  rewrite length_map, length_skipn.
  change (Z.to_nat 15) with 15%nat. lia.
Qed.

(** When [handleSubmit] goes on to send, and its argument [retryMessage]
    is left out or empty, the history ends with a new message of the user
    whose content is the input, and the last 14 messages of the session are
    in it as they are, error messages too (so it is for the Retry button
    on a message made of files only, whose content is empty). When
    [retryMessage] is not empty, no error message is part of the
    history. *)
Theorem chat_history_of_submit (retryMessage : option string)
  (retryFiles : option (list FileData.t)) (input : string)
  (attachedFiles : list FileData.t) (isLoading : bool)
  (session : ChatSession.t) (now : Z) (h : list Content.t) :
  submit_history retryMessage retryFiles input attachedFiles isLoading
    session now = Some h ->
  (is_retry retryMessage = false ->
   pop h = Some (Content.mk Role.user [input])
   /\ forall m,
        In m (skipn (List.length (ChatSession.messages session)
                     - Nat.min 14 (List.length (ChatSession.messages session)))
                (ChatSession.messages session)) ->
        In (to_content m) h)
  /\ (is_retry retryMessage = true ->
      forall c, In c h ->
        exists m, In m (ChatSession.messages session)
                  /\ is_error m = false /\ c = to_content m).
Proof.
  unfold submit_history.
  destruct (returns_early _ _ _ _ _); [discriminate|].
  intros H. injection H as <-.
  unfold chat_history, updatedMessages. split; intros Hr; rewrite Hr.
  - assert (Hc : messageContent_of retryMessage input = input).
    { unfold is_retry in Hr. unfold messageContent_of.
      destruct retryMessage as [r|]; [now rewrite Hr|reflexivity]. }
    rewrite Hc. change (-15)%Z with (Z.opp 15).
    rewrite slice_tail by lia. rewrite length_app. simpl List.length.
    split.
    + rewrite pop_map, pop_skipn_app by lia. reflexivity.
    + intros m Hm. apply in_map. rewrite skipn_app.
      apply in_or_app. left.
      replace (List.length (ChatSession.messages session) + 1
               - Nat.min (Z.to_nat 15)
                   (List.length (ChatSession.messages session) + 1))%nat
        with (List.length (ChatSession.messages session)
              - Nat.min 14 (List.length (ChatSession.messages session)))%nat
        by lia.
      exact Hm.
  - intros c Hc. apply in_map_iff in Hc. destruct Hc as (m & <- & Hm).
    apply slice_In, filter_In in Hm. destruct Hm as [Hm He].
    exists m. split; [exact Hm|]. split; [|reflexivity].
    now apply negb_true_iff in He.
Qed.

(** ** Runs of the properties with a premise *)

Lemma appendReply_errors_last_witness :
  pop (ChatSession.messages
         (ChatSession.mk "1" "hello" [demo_question; demo_error] 3))
  = Some demo_error
  /\ errors_only_last
       (ChatSession.messages
          (ChatSession.mk "1" "hello" [demo_question; demo_error] 3)).
Proof.
  destruct (proj2 (appendReply_errors_last "1" demo_error [demo_session])
              0%nat (ChatSession.mk "1" "hello" [demo_question; demo_error] 3)
              eq_refl)
    as (s & Hs & _ & _ & H).
  injection Hs as <-. apply H. reflexivity.
Defined.

Lemma read_stream_sources_witness :
  read_stream demo_stream = ("Paris", [Source.mk "A" "https://a"])
  /\ truthy "https://a" = true /\ truthy "A" = true.
Proof.
  split; [reflexivity|].
  pose proof (read_stream_sources demo_stream) as H.
  change (read_stream demo_stream)
    with ("Paris", [Source.mk "A" "https://a"]) in H.
  destruct H as (_ & _ & H).
  destruct (H (Source.mk "A" "https://a") (or_introl eq_refl))
    as (Hu & Ht & _).
  split; [exact Hu|exact Ht].
Defined.

Lemma chat_history_of_submit_witness :
  pop [to_content demo_files_only; to_content demo_error;
       Content.mk Role.user [EmptyString]]
  = Some (Content.mk Role.user [EmptyString])
  /\ In (to_content demo_error)
       [to_content demo_files_only; to_content demo_error;
        Content.mk Role.user [EmptyString]].
Proof.
  destruct (chat_history_of_submit (Some EmptyString)
              (Some [demo_attachment]) EmptyString [] false
              demo_failed_session 4 _ eq_refl) as [H _].
  destruct (H eq_refl) as [Hlast Hkept]. split; [exact Hlast|].
  apply Hkept. right. left. reflexivity.
Defined.
